(** * ShardTalk: message mirror, query/ingestion routes and resilient fetch

    A shallow embedding of
      - [lib/api/safe-fetch.ts]            (circuit breaker around [fetch]),
      - [lib/mongodb.ts]                   (lazily cached connection),
      - [app/api/messages/route.ts]        (GET and POST handlers),
      - [app/api/totalmsg/[address]/route.ts],
      - [lib/api/messages-api.ts]          (client of the two routes),
      - [scripts/sync-messages.js]         (ledger to store reconciler),
    followed by the properties of the specification's claims C1 to C10 and
    by further properties of the same code, X1 to X24.

    JavaScript objects used as dictionaries (stored documents, JSON bodies,
    the breaker table) are finite maps; the clock, the network and the
    storage faults are explicit inputs. *)

From Stdlib Require Import ZArith NArith QArith Qround Qcanon String Ascii Lia.
From stdpp Require Import base decidable option numbers list sorting gmap strings fin_maps.

Local Open Scope string_scope.
Local Open Scope Z_scope.

(* ===================================================================== *)
(** ** JavaScript values and the string primitives the handlers call      *)
(* ===================================================================== *)

Module JS.

(** A JavaScript number: [NaN] or a finite value.  Finite doubles are taken
    as exact rationals; the handlers only compare them, subtract one,
    multiply and divide small integers and take a ceiling, all of which are
    exact on doubles below 2^53.  Overflow to an infinity is not modelled. *)
Inductive number := NaN | Num (q : Qc).

#[global] Instance number_eq_dec : EqDecision number.
Proof. solve_decision. Defined.

Definition of_Z (z : Z) : number := Num (Q2Qc (inject_Z z)).
Definition of_nat (n : nat) : number := of_Z (Z.of_nat n).

(** [a < b], [a > b], [a <= b]: every comparison with [NaN] is false. *)
Definition lt (a b : number) : bool :=
  match a, b with
  | Num x, Num y => bool_decide (x < y)%Qc
  | _, _ => false
  end.
Definition gt (a b : number) : bool := lt b a.
Definition le (a b : number) : bool :=
  match a, b with
  | Num x, Num y => bool_decide (x <= y)%Qc
  | _, _ => false
  end.

Definition sub (a b : number) : number :=
  match a, b with
  | Num x, Num y => Num (x - y)%Qc
  | _, _ => NaN
  end.
Definition mul (a b : number) : number :=
  match a, b with
  | Num x, Num y => Num (x * y)%Qc
  | _, _ => NaN
  end.
(** [a / b].  A zero divisor would give an infinity (or [NaN] for 0/0);
    both are folded into [NaN] here, the model having no infinities. *)
Definition div (a b : number) : number :=
  match a, b with
  | Num x, Num y => if decide (y = 0%Qc) then NaN else Num (x / y)%Qc
  | _, _ => NaN
  end.
(** [Math.ceil] *)
Definition ceil (a : number) : number :=
  match a with
  | Num x => of_Z (Qceiling x)
  | NaN => NaN
  end.

(** The integer a number denotes, when it denotes one. *)
Definition as_integer (a : number) : option Z :=
  match a with
  | Num x => if decide (x = Q2Qc (inject_Z (Qfloor x))) then Some (Qfloor x) else None
  | NaN => None
  end.

(** The values a parsed JSON body or a stored document holds.  Arrays and
    nested objects are kept as their source text: the handlers test only
    their truthiness and their [typeof]. *)
Inductive value :=
| Undefined
| Null
| Bool (b : bool)
| Number (n : number)
| Str (s : string)
| Date (ms : number)
| Compound (text : string).

#[global] Instance value_eq_dec : EqDecision value.
Proof. solve_decision. Defined.

(** [!!v] *)
Definition truthy (v : value) : bool :=
  match v with
  | Undefined | Null => false
  | Bool b => b
  | Number NaN => false
  | Number (Num q) => bool_decide (q <> 0%Qc)
  | Str s => bool_decide (s <> "")
  | Date _ | Compound _ => true
  end.

Definition typeof (v : value) : string :=
  match v with
  | Undefined => "undefined"
  | Null | Date _ | Compound _ => "object"
  | Bool _ => "boolean"
  | Number _ => "number"
  | Str _ => "string"
  end.

(** [new Date(ms)]: a time value beyond +-8.64e15 ms makes an invalid
    date; within the range it is cut to an integer, towards zero. *)
Definition new_Date (ms : number) : value :=
  match ms with
  | Num x =>
      if bool_decide (- 8640000000000000 <= Qfloor x)
         && bool_decide (Qceiling x <= 8640000000000000)
      then Date (of_Z (if bool_decide (0 <= Qfloor x) then Qfloor x else Qceiling x))
      else Date NaN
  | NaN => Date NaN
  end.

(** *** Characters

    Strings are sequences of bytes.  The regular expression and
    [parseInt] look at ASCII characters only; [toLowerCase] is applied to
    addresses only, which are ASCII; of the white space [trim] and
    [parseInt] skip, the characters below U+0080 are modelled. *)

Definition char_code (c : ascii) : Z := Z.of_N (N_of_ascii c).

Definition is_digit (c : ascii) : bool := (48 <=? char_code c) && (char_code c <=? 57).
Definition is_hex_digit (c : ascii) : bool :=
  is_digit c
  || ((97 <=? char_code c) && (char_code c <=? 102))
  || ((65 <=? char_code c) && (char_code c <=? 70)).
(** Tab, line feed, vertical tab, form feed, carriage return, space. *)
Definition is_space (c : ascii) : bool :=
  ((9 <=? char_code c) && (char_code c <=? 13)) || (char_code c =? 32).

Definition lower_char (c : ascii) : ascii :=
  if (65 <=? char_code c) && (char_code c <=? 90)
  then ascii_of_N (N_of_ascii c + 32) else c.

(** [s.toLowerCase()] *)
Fixpoint toLowerCase (s : string) : string :=
  match s with
  | EmptyString => EmptyString
  | String c r => String (lower_char c) (toLowerCase r)
  end.

Fixpoint all_chars (p : ascii -> bool) (s : string) : bool :=
  match s with
  | EmptyString => true
  | String c r => p c && all_chars p r
  end.

Fixpoint trimStart (s : string) : string :=
  match s with
  | String c r => if is_space c then trimStart r else s
  | EmptyString => EmptyString
  end.

(** Drops trailing white space: a character is kept when something that
    is kept follows it or when it is not white space itself. *)
Fixpoint trimEnd (s : string) : string :=
  match s with
  | EmptyString => EmptyString
  | String c r =>
      match trimEnd r with
      | EmptyString => if is_space c then EmptyString else String c EmptyString
      | r' => String c r'
      end
  end.

(** [s.trim()] *)
Definition trim (s : string) : string := trimEnd (trimStart s).

(** [s.match(/^0x[a-fA-F0-9]{40}$/)] as a test. *)
Definition is_address (s : string) : bool :=
  match s with
  | String "0" (String "x" r) =>
      (Z.of_nat (String.length r) =? 40) && all_chars is_hex_digit r
  | _ => false
  end.

(** *** [parseInt(s)] with no radix argument *)

Definition digit_value (radix : Z) (c : ascii) : option Z :=
  let v :=
    if is_digit c then char_code c - 48
    else if (97 <=? char_code c) && (char_code c <=? 122) then char_code c - 87
    else if (65 <=? char_code c) && (char_code c <=? 90) then char_code c - 55
    else 99 in
  if v <? radix then Some v else None.

(** Value of the longest prefix of radix digits; [acc] is [None] until a
    digit has been read. *)
Fixpoint scan_digits (radix : Z) (s : string) (acc : option Z) : option Z :=
  match s with
  | EmptyString => acc
  | String c r =>
      match digit_value radix c with
      | Some d => scan_digits radix r (Some (radix * default 0 acc + d))
      | None => acc
      end
  end.

Definition strip_sign (s : string) : Z * string :=
  match s with
  | String "-" r => (-1, r)
  | String "+" r => (1, r)
  | _ => (1, s)
  end.

Definition strip_hex_prefix (s : string) : Z * string :=
  match s with
  | String "0" (String "x" r) => (16, r)
  | String "0" (String "X" r) => (16, r)
  | _ => (10, s)
  end.

Definition parseInt (s : string) : number :=
  let '(sign, s1) := strip_sign (trimStart s) in
  let '(radix, s2) := strip_hex_prefix s1 in
  match scan_digits radix s2 None with
  | Some m => of_Z (sign * m)
  | None => NaN
  end.

(** [String(n)], which a template literal applies to a number, for an
    integer [n]: its decimal digits, after a minus sign when it is
    negative.  This is what JavaScript writes for a safe integer, one
    below 2^53 in absolute value; larger numbers are written with the
    fewest digits that tell the double from its neighbours, and from
    10^21 on with an exponent, so the statements about printed numbers
    keep to safe integers.  [digits] puts the digits of [n] in front of
    [acc], [fuel] bounding their number. *)
Definition digit_char (d : Z) : ascii := ascii_of_N (Z.to_N (48 + d)).

Fixpoint digits (fuel : nat) (n : Z) (acc : string) : string :=
  match fuel with
  | O => acc
  | S fuel =>
      let acc := String (digit_char (n mod 10)) acc in
      if n <? 10 then acc else digits fuel (n / 10) acc
  end.

Definition Number_toString (n : Z) : string :=
  if n <? 0 then String "-" (digits (S (Z.to_nat (Z.log2 (- n)))) (- n) "")
  else digits (S (Z.to_nat (Z.log2 n))) n "".

(** The last [width] decimal digits of [n] in front of [acc], with
    leading zeros. *)
Fixpoint pad (width : nat) (n : Z) (acc : string) : string :=
  match width with
  | O => acc
  | S width => pad width (n / 10) (String (digit_char (n mod 10)) acc)
  end.

(** Year, month and day of the day [days] after 1 January 1970, in the
    proleptic Gregorian calendar. *)
Definition civil (days : Z) : Z * Z * Z :=
  let z := days + 719468 in
  let era := z / 146097 in
  let doe := z - era * 146097 in
  let yoe := (doe - doe / 1460 + doe / 36524 - doe / 146096) / 365 in
  let doy := doe - (365 * yoe + yoe / 4 - yoe / 100) in
  let mp := (5 * doy + 2) / 153 in
  let d := doy - (153 * mp + 2) / 5 + 1 in
  let m := if mp <? 10 then mp + 3 else mp - 9 in
  let y := yoe + era * 400 + (if m <=? 2 then 1 else 0) in
  (y, m, d).

(** [date.toISOString()] for the time value [ms] of a valid date:
    [YYYY-MM-DDTHH:mm:ss.sssZ], the year with a sign and six digits outside
    0 to 9999. *)
Definition toISOString (ms : Z) : string :=
  let days := ms / 86400000 in
  let t := ms mod 86400000 in
  let '(y, m, d) := civil days in
  let year :=
    if (0 <=? y) && (y <=? 9999) then pad 4 y ""
    else String (if y <? 0 then "-"%char else "+"%char) (pad 6 (Z.abs y) "") in
  year ++ "-" ++ pad 2 m "" ++ "-" ++ pad 2 d ""
       ++ "T" ++ pad 2 (t / 3600000) "" ++ ":" ++ pad 2 (t / 60000 mod 60) ""
       ++ ":" ++ pad 2 (t / 1000 mod 60) "" ++ "." ++ pad 3 (t mod 1000) "" ++ "Z".

(** [a || b] on an optional string: [null] and the empty string are falsy. *)
Definition or_default (a : option string) (b : string) : string :=
  match a with
  | Some s => if bool_decide (s = "") then b else s
  | None => b
  end.

(** [Number(n)] for a [bigint]: exact up to 53 significant bits, rounded to
    the nearest double (ties to even) above. *)
Definition Number_of_bigint (n : N) : Z :=
  let bits := N.size n in
  if (bits <=? 53)%N then Z.of_N n
  else
    let sh := (bits - 53)%N in
    let q := N.shiftr n sh in
    let r := N.land n (N.ones sh) in
    let half := N.shiftl 1 (sh - 1) in
    let q' := if (half <? r)%N || ((r =? half)%N && N.odd q) then (q + 1)%N else q in
    Z.of_N (N.shiftl q' sh).

End JS.

(* ===================================================================== *)
(** ** lib/api/safe-fetch.ts: the per-URL circuit breaker                 *)
(* ===================================================================== *)

Module SafeFetch.

Record CircuitBreakerState := {
  failures : Z;
  lastFailureTime : Z;
  isOpen : bool
}.

(** [circuitBreakers], a [Map<string, CircuitBreakerState>].  The entries
    are mutated in place by the source; here every mutation writes the
    entry back under its key. *)
Abbreviation Breakers := (gmap string CircuitBreakerState).

Definition CIRCUIT_BREAKER_THRESHOLD : Z := 3.
Definition CIRCUIT_BREAKER_TIMEOUT : Z := 60000.

Definition fresh : CircuitBreakerState :=
  {| failures := 0; lastFailureTime := 0; isOpen := false |}.

(** Returns the entry and the table, in which a missing entry has been
    created. *)
Definition getCircuitBreaker (url : string) (cbs : Breakers)
  : CircuitBreakerState * Breakers :=
  match cbs !! url with
  | Some b => (b, cbs)
  | None => (fresh, <[url := fresh]> cbs)
  end.

(** [now] is the reading of [Date.now()]. *)
Definition recordFailure (url : string) (now : Z) (cbs : Breakers) : Breakers :=
  let '(breaker, cbs) := getCircuitBreaker url cbs in
  let n := failures breaker + 1 in
  <[url := {| failures := n;
              lastFailureTime := now;
              isOpen := if CIRCUIT_BREAKER_THRESHOLD <=? n then true
                        else isOpen breaker |}]> cbs.

Definition recordSuccess (url : string) (cbs : Breakers) : Breakers :=
  let '(breaker, cbs) := getCircuitBreaker url cbs in
  <[url := {| failures := 0;
              lastFailureTime := lastFailureTime breaker;
              isOpen := false |}]> cbs.

Definition shouldAllowRequest (url : string) (now : Z) (cbs : Breakers)
  : bool * Breakers :=
  let '(breaker, cbs) := getCircuitBreaker url cbs in
  if negb (isOpen breaker) then (true, cbs)
  else
    let timeSinceLastFailure := now - lastFailureTime breaker in
    if CIRCUIT_BREAKER_TIMEOUT <? timeSinceLastFailure
    then (true, <[url := {| failures := 0;
                            lastFailureTime := lastFailureTime breaker;
                            isOpen := false |}]> cbs)
    else (false, cbs).

Record Error := { name : string; message : string }.

(** What [fetch(url, { ...options, signal: AbortSignal.timeout(10000) })]
    settles with. *)
Inductive FetchResult :=
| Responds (status : Z)
| Rejects (e : Error).

(** A connection that cannot be made rejects with a [TypeError]. *)
Definition network_error : Error :=
  {| name := "TypeError"; message := "Failed to fetch" |}.

(** When the ten seconds of [AbortSignal.timeout(10000)] run out, the
    signal aborts with a [DOMException] named [TimeoutError] (DOM
    Standard, [AbortSignal.timeout]), and [fetch] rejects with the abort
    reason of its signal (Fetch Standard).  [AbortError] is the name of
    the reason of a signal aborted by [AbortController.abort()]; the
    signal a caller passes in [options] is replaced by the time-out
    signal here. *)
Definition timeout_error : Error :=
  {| name := "TimeoutError"; message := "The operation was aborted due to timeout" |}.

Definition circuit_open_error : Error :=
  {| name := "Error";
     message := "Service temporarily unavailable. Circuit breaker is open." |}.

(** [response.ok] *)
Definition ok (status : Z) : bool := (200 <=? status) && (status <=? 299).

(** How a call ends for its caller. *)
Inductive Completion :=
| Returns (status : Z)
| Throws (e : Error).

Record Outcome := {
  completion : Completion;
  breakers : Breakers;
  network : list string     (* the URLs [fetch] was called with *)
}.

(** One call of [safeFetch(url)].  [t0] is the clock when the breaker is
    consulted, [net] what the network does with the request if it is sent,
    and [t1] the clock when the request has settled. *)
Definition safeFetch (url : string) (t0 : Z) (net : FetchResult) (t1 : Z)
           (cbs : Breakers) : Outcome :=
  let '(allowed, cbs) := shouldAllowRequest url t0 cbs in
  if negb allowed
  then {| completion := Throws circuit_open_error; breakers := cbs; network := [] |}
  else
    match net with
    | Responds status =>
        let cbs :=
          if ok status then recordSuccess url cbs
          else if 500 <=? status then recordFailure url t1 cbs
          else cbs in
        {| completion := Returns status; breakers := cbs; network := [url] |}
    | Rejects error =>
        let cbs :=
          if bool_decide (name error = "AbortError")
             || bool_decide (name error = "TypeError")
          then recordFailure url t1 cbs
          else cbs in
        {| completion := Throws error; breakers := cbs; network := [url] |}
    end.

(** The entry the table holds for [url], a missing one reading as fresh. *)
Definition breaker_of (url : string) (cbs : Breakers) : CircuitBreakerState :=
  default fresh (cbs !! url).

(** One call of [safeFetchJSON(url)]: the value returned, [None] being
    [null], and the outcome of the [safeFetch] inside.  [parsed] is what
    [response.json()] gives for the body of the response, [None] when it
    rejects, the body not being JSON, or gives [null]. *)
Definition safeFetchJSON {T} (url : string) (t0 : Z) (net : FetchResult)
           (parsed : option T) (t1 : Z) (cbs : Breakers) : option T * Outcome :=
  let o := safeFetch url t0 net t1 cbs in
  (match completion o with
   | Returns status => if negb (ok status) then None else parsed
   | Throws _ => None
   end, o).

(** [circuitBreakers.clear()] *)
Definition resetCircuitBreakers (cbs : Breakers) : Breakers := ∅.

End SafeFetch.

(* ===================================================================== *)
(** ** The [messages] collection                                          *)
(* ===================================================================== *)

(** The document store is MongoDB, reached through its Node driver.  Only the
    operations the repository calls are modelled, with the meaning the
    driver documents for them.  A collection is the list of its documents in
    storage order; the generated [_id] field is left out. *)
Module Mongo.
Import JS.

Abbreviation Doc := (gmap string value).

(** Serialisation of a JavaScript object: an [undefined] field is stored
    as [null] (the driver's default, [ignoreUndefined: false]). *)
Definition to_bson (d : Doc) : Doc :=
  (fun v => match v with Undefined => Null | _ => v end) <$> d.

Record UpdateResult := {
  matchedCount : Z;
  modifiedCount : Z;
  upsertedCount : Z
}.

Definition no_result : UpdateResult :=
  {| matchedCount := 0; modifiedCount := 0; upsertedCount := 0 |}.

Definition add_result (a b : UpdateResult) : UpdateResult :=
  {| matchedCount := matchedCount a + matchedCount b;
     modifiedCount := modifiedCount a + modifiedCount b;
     upsertedCount := upsertedCount a + upsertedCount b |}.

(** The filter [{ messageId: id }]. *)
Definition has_id (id : number) (d : Doc) : bool :=
  bool_decide (d !! "messageId" = Some (Number id)).

(** The filter [{ sender: s }]. *)
Definition has_sender (s : string) (d : Doc) : bool :=
  bool_decide (d !! "sender" = Some (Str s)).

(** [updateOne({ messageId: id }, { $set: set }, { upsert: true })].
    The first matching document gets every field of [set] written over
    it, its other fields staying; it counts as modified when that changed
    it.  With no match a document made of the filter's field and the
    fields of [set] is appended. *)
Fixpoint updateOne (id : number) (set : Doc) (coll : list Doc)
  : list Doc * UpdateResult :=
  match coll with
  | [] =>
      ([set ∪ {[ "messageId" := Number id ]}],
       {| matchedCount := 0; modifiedCount := 0; upsertedCount := 1 |})
  | d :: rest =>
      if has_id id d
      then ((set ∪ d) :: rest,
            {| matchedCount := 1;
               modifiedCount := if decide (set ∪ d = d) then 0 else 1;
               upsertedCount := 0 |})
      else let '(rest', r) := updateOne id set rest in (d :: rest', r)
  end.

(** [bulkWrite(ops)] where every operation is an upserting [updateOne];
    the operations run in order and their counts add up. *)
Fixpoint bulkWrite (ops : list (number * Doc)) (coll : list Doc)
  : list Doc * UpdateResult :=
  match ops with
  | [] => (coll, no_result)
  | (id, set) :: ops' =>
      let '(coll1, r1) := updateOne id set coll in
      let '(coll2, r2) := bulkWrite ops' coll1 in
      (coll2, add_result r1 r2)
  end.

(** [countDocuments({ sender: s })] *)
Definition countDocuments (s : string) (coll : list Doc) : nat :=
  length (filter (fun d => has_sender s d = true) coll).

(** Sort key of [sort({ timestamp: -1 })].  Documents whose [timestamp] is
    not a finite number are placed last; the store orders those by BSON
    type, which nothing below depends on. *)
Definition timestamp_key (d : Doc) : option Qc :=
  match d !! "timestamp" with
  | Some (Number (Num q)) => Some q
  | _ => None
  end.

Definition strictly_newer (a b : Doc) : bool :=
  match timestamp_key a, timestamp_key b with
  | Some x, Some y => bool_decide (y < x)%Qc
  | Some _, None => true
  | None, _ => false
  end.

Fixpoint insert_by_recency (d : Doc) (l : list Doc) : list Doc :=
  match l with
  | [] => [d]
  | x :: r => if strictly_newer x d then x :: insert_by_recency d r else d :: x :: r
  end.

(** Most recent first; equal timestamps keep their storage order. *)
Definition sort_by_recency (l : list Doc) : list Doc :=
  foldr insert_by_recency [] l.

(** [find({ sender: s }).sort({ timestamp: -1 }).skip(skip).limit(limit)
    .toArray()]; a limit of 0 means no limit. *)
Definition find (s : string) (skip limit : nat) (coll : list Doc) : list Doc :=
  let hits := drop skip (sort_by_recency (filter (fun d => has_sender s d = true) coll)) in
  if (limit =? 0)%nat then hits else take limit hits.

(** [distinct('sender')]: the different values of the field. *)
Definition distinct_senders (coll : list Doc) : list value :=
  remove_dups (omap (fun d : Doc => d !! "sender") coll).

End Mongo.

(* ===================================================================== *)
(** ** lib/mongodb.ts and the storage calls, with their faults            *)
(* ===================================================================== *)

Module Storage.
Import JS Mongo.

(** The calls that reach the database server. *)
Inductive Call :=
| Connect
| CountAll
| CountDocuments (sender : string)
| Find (sender : string) (skip limit : number)
| UpdateOne (messageId : number) (set : Doc)
| BulkWrite (ops : list (number * Doc))
| Distinct (field : string).

Record MongoError := { code : option Z; message : string }.

(** The process and its database: the [MONGODB_URI] setting, the cached
    connection of [lib/mongodb.ts], the collection, which calls fail (and
    with what), and the calls made so far, latest first. *)
Record Store := {
  MONGODB_URI : bool;
  cached : bool;
  messages : list Doc;
  fault : Call -> option MongoError;
  calls : list Call
}.

Definition M (A : Type) : Type := Store -> (MongoError + A) * Store.

Definition log (c : Call) (st : Store) : Store :=
  {| MONGODB_URI := MONGODB_URI st; cached := cached st;
     messages := messages st; fault := fault st; calls := c :: calls st |}.

Definition set_cached (st : Store) : Store :=
  {| MONGODB_URI := MONGODB_URI st; cached := true;
     messages := messages st; fault := fault st; calls := calls st |}.

Definition set_messages (coll : list Doc) (st : Store) : Store :=
  {| MONGODB_URI := MONGODB_URI st; cached := cached st;
     messages := coll; fault := fault st; calls := calls st |}.

(** A call is logged, then fails as the fault table says or yields [run]
    on the collection. *)
Definition perform {A} (c : Call) (run : list Doc -> A * list Doc) : M A :=
  fun st =>
    let st := log c st in
    match fault st c with
    | Some e => (inl e, st)
    | None => let '(a, coll) := run (messages st) in (inr a, set_messages coll st)
    end.

Definition query {A} (c : Call) (run : list Doc -> A) : M A :=
  perform c (fun coll => (run coll, coll)).

(** [getMongoDb()]: throws without a connection string, returns the
    cached database when there is one, connects otherwise.  The index
    creation it starts in the background is not awaited and not modelled. *)
Definition getMongoDb : M unit :=
  fun st =>
    if negb (MONGODB_URI st)
    then (inl {| code := None; message := "Missing MONGODB_URI environment variable" |}, st)
    else if cached st then (inr tt, st)
    else
      let st := log Connect st in
      match fault st Connect with
      | Some e => (inl e, st)
      | None => (inr tt, set_cached st)
      end.

(** The server takes a skip and a limit that are non-negative integers and
    rejects the command otherwise. *)
Definition as_count (n : number) : option nat :=
  match as_integer n with
  | Some z => if 0 <=? z then Some (Z.to_nat z) else None
  | None => None
  end.

Definition bad_value : MongoError :=
  {| code := Some 2; message := "BadValue" |}.

Definition countDocuments (sender : string) : M nat :=
  query (CountDocuments sender) (Mongo.countDocuments sender).

Definition find (sender : string) (skip limit : number) : M (list Doc) :=
  fun st =>
    match as_count skip, as_count limit with
    | Some s, Some l => query (Find sender skip limit) (Mongo.find sender s l) st
    | _, _ => (inl bad_value, log (Find sender skip limit) st)
    end.

Definition updateOne (id : number) (set : Doc) : M UpdateResult :=
  perform (UpdateOne id set)
          (fun coll => let '(coll', r) := Mongo.updateOne id set coll in (r, coll')).

Definition bulkWrite (ops : list (number * Doc)) : M UpdateResult :=
  perform (BulkWrite ops)
          (fun coll => let '(coll', r) := Mongo.bulkWrite ops coll in (r, coll')).

End Storage.

(* ===================================================================== *)
(** ** HTTP responses                                                     *)
(* ===================================================================== *)

Module Http.
Import JS Mongo.

(** A field of a JSON response body. *)
Inductive field :=
| FBool (b : bool)
| FNum (n : number)
| FStr (s : string)
| FValue (v : value)
| FDocs (l : list Doc)
| FPagination (page limit total totalPages : number)
| FReceived (messageId sender content timestamp : bool).

(** [NextResponse.json(body, { status })]; the status is 200 when none is
    given. *)
Record Response := { status : Z; body : gmap string field }.

Definition json (status : Z) (fields : list (string * field)) : Response :=
  {| status := status; body := list_to_map fields |}.

End Http.

(* ===================================================================== *)
(** ** JSON on the wire                                                   *)
(* ===================================================================== *)

Module Json.
Import JS Mongo Http.

(** A parsed JSON text.  [JRaw] is an array or an object kept as its
    source text, as [Compound] is; it is met as a member of a stored
    document, which the client tests for its type and never reads
    into. *)
#[warnings="-register-all"] Inductive json :=
| JNull
| JBool (b : bool)
| JNumber (q : Qc)
| JString (s : string)
| JArray (items : list json)
| JObject (fields : gmap string json)
| JRaw (text : string).

(** [v.k] for a value [v] that is neither [null] nor [undefined];
    [None] is [undefined]. *)
Definition get (k : string) (v : json) : option json :=
  match v with
  | JObject fields => fields !! k
  | _ => None
  end.

Definition typeof (v : option json) : string :=
  match v with
  | None => "undefined"
  | Some (JBool _) => "boolean"
  | Some (JNumber _) => "number"
  | Some (JString _) => "string"
  | Some (JNull | JArray _ | JObject _ | JRaw _) => "object"
  end.

(** [!!v] *)
Definition truthy (v : option json) : bool :=
  match v with
  | None | Some JNull => false
  | Some (JBool b) => b
  | Some (JNumber q) => bool_decide (q <> 0%Qc)
  | Some (JString s) => bool_decide (s <> "")
  | Some (JArray _ | JObject _ | JRaw _) => true
  end.

(** [Array.isArray(v)] *)
Definition isArray (v : option json) : bool :=
  match v with
  | Some (JArray _) => true
  | Some (JRaw (String "[" _)) => true
  | _ => false
  end.

(** The elements a [for ... of] over an array visits. *)
Definition elements (v : option json) : list json :=
  match v with
  | Some (JArray items) => items
  | _ => []
  end.

(** *** [JSON.stringify], read back by [JSON.parse] *)

(** [NaN] is written as [null]. *)
Definition number_json (n : number) : json :=
  match n with
  | Num q => JNumber q
  | NaN => JNull
  end.

(** A member of an object: one that is [undefined] is left out; a date
    is written by its [toJSON], the ISO string, or [null] when it is
    invalid. *)
Definition value_json (v : value) : option json :=
  match v with
  | Undefined => None
  | Null => Some JNull
  | Bool b => Some (JBool b)
  | Number n => Some (number_json n)
  | Str s => Some (JString s)
  | Date (Num ms) => Some (JString (toISOString (Qfloor ms)))
  | Date NaN => Some JNull
  | Compound text => Some (JRaw text)
  end.

(** A stored document; the [_id] the store generates is left out, as in
    [Doc]. *)
Definition doc_json (d : Doc) : json := JObject (omap value_json d).

Definition field_json (f : field) : option json :=
  match f with
  | FBool b => Some (JBool b)
  | FNum n => Some (number_json n)
  | FStr s => Some (JString s)
  | FValue v => value_json v
  | FDocs l => Some (JArray (map doc_json l))
  | FPagination page limit total totalPages =>
      Some (JObject {[ "page" := number_json page;
                       "limit" := number_json limit;
                       "total" := number_json total;
                       "totalPages" := number_json totalPages ]})
  | FReceived messageId sender content timestamp =>
      Some (JObject {[ "messageId" := JBool messageId;
                       "sender" := JBool sender;
                       "content" := JBool content;
                       "timestamp" := JBool timestamp ]})
  end.

(** The body [NextResponse.json(body)] sends, as [response.json()]
    gives it to the caller. *)
Definition wire (r : Response) : json := JObject (omap field_json (body r)).


End Json.

(* ===================================================================== *)
(** ** app/api/messages/route.ts                                          *)
(* ===================================================================== *)

Module MessagesRoute.
Import JS Mongo Storage Http.

(** The query string, as [searchParams.get] reads it: [None] is [null]. *)
Record Query := {
  q_address : option string;
  q_count : option string;
  q_page : option string;
  q_limit : option string
}.

(** [GET]: the response and the store afterwards.  Every call that can
    throw sits in one of the inner [try] blocks, so the outer [catch]
    (status 500) is never entered. *)
Definition GET (req : Query) (st : Store) : Response * Store :=
  let address := q_address req in
  let count := bool_decide (q_count req = Some "true") in
  let page := parseInt (or_default (q_page req) "1") in
  let limit := parseInt (or_default (q_limit req) "20") in
  match address with
  | None | Some "" =>
      (json 400 [("success", FBool false);
                 ("error", FStr "Address parameter is required");
                 ("example", FStr "/api/messages?address=0x123...&count=true")], st)
  | Some address =>
      if negb (is_address address) then
        (json 400 [("success", FBool false);
                   ("error", FStr "Invalid Ethereum address format");
                   ("address", FStr address)], st)
      else if lt page (of_Z 1) then
        (json 400 [("success", FBool false);
                   ("error", FStr "Page must be >= 1");
                   ("provided", FNum page)], st)
      else if lt limit (of_Z 1) || gt limit (of_Z 100) then
        (json 400 [("success", FBool false);
                   ("error", FStr "Limit must be between 1 and 100");
                   ("provided", FNum limit)], st)
      else
        let normalizedAddress := toLowerCase address in
        match getMongoDb st with
        | (inl _, st) =>
            (json 200 [("success", FBool false);
                       ("error", FStr "Database connection failed");
                       ("message", FStr "Unable to connect to database. Please try again later.");
                       ("address", FStr normalizedAddress);
                       ("messageCount", FNum (of_Z 0))], st)
        | (inr _, st) =>
            if count then
              match countDocuments normalizedAddress st with
              | (inr messageCount, st) =>
                  (json 200 [("success", FBool true);
                             ("address", FStr normalizedAddress);
                             ("messageCount", FNum (of_nat messageCount))], st)
              | (inl _, st) =>
                  (json 200 [("success", FBool false);
                             ("error", FStr "Failed to count messages");
                             ("address", FStr normalizedAddress);
                             ("messageCount", FNum (of_Z 0))], st)
              end
            else
              let failed st :=
                (json 200 [("success", FBool false);
                           ("error", FStr "Failed to fetch messages");
                           ("address", FStr normalizedAddress);
                           ("messages", FDocs []);
                           ("pagination", FPagination page limit (of_Z 0) (of_Z 0))], st) in
              let skip := mul (sub page (of_Z 1)) limit in
              match find normalizedAddress skip limit st with
              | (inl _, st) => failed st
              | (inr messages, st) =>
                  match countDocuments normalizedAddress st with
                  | (inl _, st) => failed st
                  | (inr totalMessages, st) =>
                      (json 200 [("success", FBool true);
                                 ("address", FStr normalizedAddress);
                                 ("messages", FDocs messages);
                                 ("pagination",
                                  FPagination page limit (of_nat totalMessages)
                                              (ceil (div (of_nat totalMessages) limit)))], st)
                  end
              end
        end
  end.

(** What [await request.json()] gives: a rejection for text that is not
    JSON, else the parsed value.  Property reads on [null] throw; on an
    object they give the field or [undefined]; on any other value the
    five names read as [undefined]. *)
Inductive Body :=
| NotJSON
| JNull
| JObject (fields : gmap string value)
| JOther.

Definition prop (fields : gmap string value) (k : string) : value :=
  default Undefined (fields !! k).

Definition internal_error (message : string) : Response :=
  json 500 [("success", FBool false);
            ("error", FStr "Internal server error");
            ("message", FStr message)].

(** [POST]: the response and the store afterwards.  [now] is the time
    [new Date()] reads.  The outer [catch] (status 500) is entered when
    the body is [null], whose properties cannot be read, and when
    [sender] is truthy but no string, [sender.match] then being no
    function. *)
Definition POST (now : Z) (req : Body) (st : Store) : Response * Store :=
  match req with
  | NotJSON =>
      (json 400 [("success", FBool false);
                 ("error", FStr "Invalid JSON in request body")], st)
  | JNull =>
      (internal_error "Cannot destructure property 'messageId' of 'body' as it is null.", st)
  | _ =>
      let fields := match req with JObject f => f | _ => ∅ end in
      let messageId := prop fields "messageId" in
      let sender := prop fields "sender" in
      let content := prop fields "content" in
      let timestamp := prop fields "timestamp" in
      let transactionHash := prop fields "transactionHash" in
      if negb (truthy messageId) || negb (truthy sender)
         || negb (truthy content) || negb (truthy timestamp) then
        (json 400 [("success", FBool false);
                   ("error", FStr "Missing required fields: messageId, sender, content, timestamp");
                   ("received", FReceived (truthy messageId) (truthy sender)
                                          (truthy content) (truthy timestamp))], st)
      else
        match messageId with
        | Number messageId_n =>
            match sender with
            | Str sender_s =>
                if negb (is_address sender_s) then
                  (json 400 [("success", FBool false);
                             ("error", FStr "Invalid Ethereum address format for sender");
                             ("sender", FValue sender)], st)
                else
                  match content with
                  | Str content_s =>
                      if bool_decide (trim content_s = "") then
                        (json 400 [("success", FBool false);
                                   ("error", FStr "content must be a non-empty string")], st)
                      else
                        match timestamp with
                        | Number timestamp_n =>
                            if le timestamp_n (of_Z 0) then
                              (json 400 [("success", FBool false);
                                         ("error", FStr "timestamp must be a positive number")], st)
                            else
                              match getMongoDb st with
                              | (inl _, st) =>
                                  (json 503 [("success", FBool false);
                                             ("error", FStr "Database connection failed");
                                             ("message", FStr "Unable to connect to database. Message not saved.")], st)
                              | (inr _, st) =>
                                  let normalizedAddress := toLowerCase sender_s in
                                  let messageDoc : Doc :=
                                    {[ "messageId" := messageId;
                                       "sender" := Str normalizedAddress;
                                       "content" := Str (trim content_s);
                                       "timestamp" := timestamp;
                                       "transactionHash" := transactionHash;
                                       "createdAt" := new_Date (of_Z now) ]} in
                                  match updateOne messageId_n (to_bson messageDoc) st with
                                  | (inr result, st) =>
                                      (json 200 [("success", FBool true);
                                                 ("messageId", FValue messageId);
                                                 ("inserted", FBool (0 <? upsertedCount result));
                                                 ("updated", FBool (0 <? modifiedCount result));
                                                 ("message",
                                                  FStr (if 0 <? upsertedCount result
                                                        then "Message saved successfully"
                                                        else "Message updated successfully"))], st)
                                  | (inl dbError, st) =>
                                      if bool_decide (code dbError = Some 11000) then
                                        (json 409 [("success", FBool false);
                                                   ("error", FStr "Message with this ID already exists");
                                                   ("messageId", FValue messageId)], st)
                                      else
                                        (json 503 [("success", FBool false);
                                                   ("error", FStr "Failed to save message");
                                                   ("message", FStr (message dbError))], st)
                                  end
                              end
                        | _ =>
                            (json 400 [("success", FBool false);
                                       ("error", FStr "timestamp must be a positive number")], st)
                        end
                  | _ =>
                      (json 400 [("success", FBool false);
                                 ("error", FStr "content must be a non-empty string")], st)
                  end
            | _ => (internal_error "sender.match is not a function", st)
            end
        | _ =>
            (json 400 [("success", FBool false);
                       ("error", FStr "messageId must be a number");
                       ("received", FStr (typeof messageId))], st)
        end
  end.

End MessagesRoute.

(* ===================================================================== *)
(** ** app/api/totalmsg/[address]/route.ts                                *)
(* ===================================================================== *)

Module TotalMsgRoute.
Import JS Mongo Storage Http.

(** [address] is the path parameter. *)
Definition GET (address : string) (st : Store) : Response * Store :=
  if bool_decide (address = "") || negb (is_address address) then
    (json 400 [("success", FBool false);
               ("error", FStr "Invalid Ethereum address format");
               ("address", FStr (or_default (Some address) "missing"));
               ("example", FStr "/api/totalmsg/0x22D74ADFB45147d7588aFA3ba0eF1c363b7dFcFF");
               ("totalMessages", FNum (of_Z 0))], st)
  else
    let normalizedAddress := toLowerCase address in
    match getMongoDb st with
    | (inl _, st) =>
        (json 200 [("success", FBool false);
                   ("error", FStr "Database connection failed");
                   ("address", FStr normalizedAddress);
                   ("totalMessages", FNum (of_Z 0));
                   ("message", FStr "Unable to fetch message count at this time")], st)
    | (inr _, st) =>
        match countDocuments normalizedAddress st with
        | (inr totalMessages, st) =>
            (json 200 [("success", FBool true);
                       ("address", FStr normalizedAddress);
                       ("totalMessages", FNum (of_nat totalMessages))], st)
        | (inl _, st) =>
            (json 200 [("success", FBool false);
                       ("error", FStr "Failed to count messages");
                       ("address", FStr normalizedAddress);
                       ("totalMessages", FNum (of_Z 0))], st)
        end
    end.

End TotalMsgRoute.

(* ===================================================================== *)
(** ** lib/api/messages-api.ts: the client of the messages API            *)
(* ===================================================================== *)

Module MessagesApi.
Import JS Json.

(** A request, by what its URL and its body spell.  The base URL is left
    out.  [encodeURIComponent] leaves every character of an address that
    passed the check as it is, and [searchParams.get] gives the same
    string back. *)
Inductive Request :=
| Get (query : MessagesRoute.Query)
| Post (fields : gmap string value).

(** How [fetch] settles: with a response, whose body [response.json()]
    parses ([inl] holds the message of the [SyntaxError] of a body that is
    not JSON), or with a rejection.  When the timer of [fetchWithTimeout]
    fires first, the controller aborts and [fetch] rejects with an error
    named [AbortError]. *)
Inductive Reply :=
| Answers (status : Z) (body : string + json)
| Fails (e : SafeFetch.Error).

(** [VerificationResult<T>]; whatever [T], the data is a JSON value. *)
Record VerificationResult := {
  success : bool;
  data : option json;
  error : option json;
  statusCode : option Z
}.

(** [/api/messages?address=${address}&count=true] *)
Definition count_query (address : string) : MessagesRoute.Query :=
  {| MessagesRoute.q_address := Some address;
     MessagesRoute.q_count := Some "true";
     MessagesRoute.q_page := None;
     MessagesRoute.q_limit := None |}.

(** [/api/messages?address=${address}&page=${page}&limit=${limit}] *)
Definition list_query (address : string) (page limit : Z) : MessagesRoute.Query :=
  {| MessagesRoute.q_address := Some address;
     MessagesRoute.q_count := None;
     MessagesRoute.q_page := Some (Number_toString page);
     MessagesRoute.q_limit := Some (Number_toString limit) |}.

Definition failed (error : json) (statusCode : option Z) : VerificationResult :=
  {| success := false; data := None; error := Some error; statusCode := statusCode |}.

Definition succeeded (data : json) (statusCode : option Z) : VerificationResult :=
  {| success := true; data := Some data; error := None; statusCode := statusCode |}.

(** The [catch] of every method: [error.message || 'Unknown error']. *)
Definition caught (message : string) : VerificationResult :=
  failed (JString (if bool_decide (message = "") then "Unknown error" else message)) None.

(** The message of the [TypeError] that reading property [k] of [null]
    throws. *)
Definition null_read (k : string) : string :=
  "Cannot read properties of null (reading '" ++ k ++ "')".

(** The branch [!response.ok] of every method:
    [errorData.error || `HTTP ${statusCode} error`]. *)
Definition error_reply (statusCode : Z) (body : string + json) : VerificationResult :=
  match body with
  | inl syntax_error => caught syntax_error
  | inr JNull => caught (null_read "error")
  | inr errorData =>
      failed (match get "error" errorData with
              | Some e => if truthy (Some e) then e
                          else JString ("HTTP " ++ Number_toString statusCode ++ " error")
              | None => JString ("HTTP " ++ Number_toString statusCode ++ " error")
              end)
             (Some statusCode)
  end.

(** [data.address.toLowerCase() === address.toLowerCase()], for a
    [data.address] that is a string. *)
Definition address_matches (data : json) (address : string) : bool :=
  match get "address" data with
  | Some (JString a) => bool_decide (toLowerCase a = toLowerCase address)
  | _ => false
  end.

Definition has_type (t : string) (v : option json) : bool :=
  bool_decide (typeof v = t).

(** The loop over [data.messages]: [None] when every message has the
    four fields, else the result the method ends with. *)
Fixpoint check_messages (statusCode : Z) (msgs : list json) : option VerificationResult :=
  match msgs with
  | [] => None
  | JNull :: _ => Some (caught (null_read "messageId"))
  | msg :: rest =>
      if negb (has_type "number" (get "messageId" msg))
         || negb (has_type "string" (get "sender" msg))
         || negb (has_type "string" (get "content" msg))
         || negb (has_type "number" (get "timestamp" msg))
      then Some (failed (JString "Invalid message structure") (Some statusCode))
      else check_messages statusCode rest
  end.



Section Client.
Context {State : Type} (fetch : Request → State → Reply * State).

(** [fetchWithTimeout]: the status and the body of the response, or the
    error thrown. *)
Definition fetchWithTimeout (req : Request) (s : State)
  : (SafeFetch.Error + Z * (string + json)) * State :=
  match fetch req s with
  | (Answers status body, s) => (inr (status, body), s)
  | (Fails e, s) =>
      (inl (if bool_decide (SafeFetch.name e = "AbortError")
            then {| SafeFetch.name := "Error"; SafeFetch.message := "Request timeout" |}
            else e), s)
  end.

Definition getMessageCount (address : string) (s : State) : VerificationResult * State :=
  if bool_decide (address = "") || negb (is_address address) then
    (failed (JString "Invalid Ethereum address format") None, s)
  else
    match fetchWithTimeout (Get (count_query address)) s with
    | (inl e, s) => (caught (SafeFetch.message e), s)
    | (inr (statusCode, body), s) =>
        if negb (SafeFetch.ok statusCode) then (error_reply statusCode body, s)
        else
          match body with
          | inl syntax_error => (caught syntax_error, s)
          | inr JNull => (caught (null_read "address"), s)
          | inr data =>
              if negb (has_type "string" (get "address" data))
                 || negb (has_type "number" (get "messageCount" data))
              then (failed (JString "Invalid response structure") (Some statusCode), s)
              else if negb (address_matches data address)
              then (failed (JString "Response address mismatch") (Some statusCode), s)
              else (succeeded data (Some statusCode), s)
          end
    end.

(** [page] and [limit] are whole numbers here. *)
Definition getMessages (address : string) (page limit : Z) (s : State)
  : VerificationResult * State :=
  if bool_decide (address = "") || negb (is_address address) then
    (failed (JString "Invalid Ethereum address format") None, s)
  else if page <? 1 then
    (failed (JString "Page must be >= 1") None, s)
  else if (limit <? 1) || (100 <? limit) then
    (failed (JString "Limit must be between 1 and 100") None, s)
  else
    match fetchWithTimeout (Get (list_query address page limit)) s with
    | (inl e, s) => (caught (SafeFetch.message e), s)
    | (inr (statusCode, body), s) =>
        if negb (SafeFetch.ok statusCode) then (error_reply statusCode body, s)
        else
          match body with
          | inl syntax_error => (caught syntax_error, s)
          | inr JNull => (caught (null_read "address"), s)
          | inr data =>
              if negb (has_type "string" (get "address" data))
                 || negb (isArray (get "messages" data))
                 || negb (truthy (get "pagination" data))
              then (failed (JString "Invalid response structure") (Some statusCode), s)
              else
                let p := default JNull (get "pagination" data) in
                if negb (has_type "number" (get "page" p))
                   || negb (has_type "number" (get "limit" p))
                   || negb (has_type "number" (get "total" p))
                   || negb (has_type "number" (get "totalPages" p))
                then (failed (JString "Invalid pagination structure") (Some statusCode), s)
                else if negb (address_matches data address)
                then (failed (JString "Response address mismatch") (Some statusCode), s)
                else
                  match check_messages statusCode (elements (get "messages" data)) with
                  | Some result => (result, s)
                  | None => (succeeded data (Some statusCode), s)
                  end
          end
    end.




(** [result.success && result.data.messageCount > 0] *)
Definition hasMessages (address : string) (s : State) : bool * State :=
  let '(result, s) := getMessageCount address s in
  (success result
   && match data result ≫= get "messageCount" with
      | Some (JNumber q) => bool_decide (0 < q)%Qc
      | _ => false
      end, s).


End Client.

End MessagesApi.

(* ===================================================================== *)
(** ** scripts/sync-messages.js                                           *)
(* ===================================================================== *)

Module SyncMessages.
Import JS Mongo Storage.

(** A record as the contract returns it: [uint256] numbers as [bigint],
    the sender as an address string. *)
Record LedgerMessage := {
  messageId : N;
  sender : string;
  content : string;
  timestamp : N
}.

Inductive ChainCall :=
| GetTotalMessageCount
| GetMessages (start count : Z).

(** The contract behind the RPC endpoint: its message log and the calls
    that fail. *)
Record Chain := {
  ledger : list LedgerMessage;
  rpc_fault : ChainCall -> bool
}.

(** Modelled from the spec: the contract [ShardeumChat] is not part of the
    sources.  The ledger is an append-only, totally ordered log;
    [getTotalMessageCount()] is its length. *)
Definition getTotalMessageCount (ch : Chain) : option N :=
  if rpc_fault ch GetTotalMessageCount then None
  else Some (N.of_nat (length (ledger ch))).

(** Modelled from the spec: [getMessages(start, count)] is the ordered
    sequence of up to [count] ledger records from position [start]. *)
Definition getMessages (ch : Chain) (start count : Z) : option (list LedgerMessage) :=
  if rpc_fault ch (GetMessages start count) then None
  else Some (take (Z.to_nat count) (drop (Z.to_nat start) (ledger ch))).

Definition BATCH_SIZE : Z := 50.

(** The document built in [messages.map]. *)
Definition messageDoc (msg : LedgerMessage) : Doc :=
  {[ "messageId" := Number (of_Z (Number_of_bigint (messageId msg)));
     "sender" := Str (toLowerCase (sender msg));
     "content" := Str (content msg);
     "timestamp" := Number (of_Z (Number_of_bigint (timestamp msg)));
     "createdAt" := new_Date (mul (of_Z (Number_of_bigint (timestamp msg))) (of_Z 1000)) ]}.

(** One element of [bulkOps]: the filter's [messageId] and the [$set]. *)
Definition bulkOp (msg : LedgerMessage) : number * Doc :=
  (of_Z (Number_of_bigint (messageId msg)), messageDoc msg).

Record Counters := {
  syncedCount : Z;
  updatedCount : Z;
  skippedCount : Z
}.

Definition count_batch (acc : Counters) (result : UpdateResult) : Counters :=
  {| syncedCount := syncedCount acc + upsertedCount result;
     updatedCount := updatedCount acc + modifiedCount result;
     skippedCount := skippedCount acc + (matchedCount result - modifiedCount result) |}.

(** The [for] loop over the batches, from offset [start].  [fuel] bounds
    the number of iterations; [None] is returned only when it runs out. *)
Fixpoint sync_batches (fuel : nat) (ch : Chain) (messageCount start : Z)
         (acc : Counters) (st : Store) : option ((string + Counters) * Store) :=
  if negb (start <? messageCount) then Some (inr acc, st)
  else
    match fuel with
    | O => None
    | S fuel =>
        let count := Z.min BATCH_SIZE (messageCount - start) in
        match getMessages ch start count with
        | None => Some (inl "could not read the ledger", st)
        | Some messages =>
            let bulkOps := map bulkOp messages in
            if (0 <? length bulkOps)%nat then
              match bulkWrite bulkOps st with
              | (inl e, st) => Some (inl (message e), st)
              | (inr result, st) =>
                  sync_batches fuel ch messageCount (start + BATCH_SIZE)
                               (count_batch acc result) st
              end
            else sync_batches fuel ch messageCount (start + BATCH_SIZE) acc st
        end
    end.

Record Summary := {
  total : Z;
  inserted : Z;
  updated : Z;
  unchanged : Z;
  uniqueSenders : nat
}.

Inductive Run :=
| NothingToSync
| Completed (s : Summary)
| Aborted (error : string).      (* [process.exit(1)] *)

(** The script connects with a client of its own, not through
    [getMongoDb]. *)
Definition connect : M unit :=
  fun st =>
    if negb (MONGODB_URI st)
    then (inl {| code := None; message := "Invalid connection string" |}, st)
    else perform Connect (fun coll => (tt, coll)) st.

Definition syncMessages (ch : Chain) (st : Store) : option (Run * Store) :=
  match getTotalMessageCount ch with
  | None => Some (Aborted "could not read the ledger", st)
  | Some totalMessages =>
      let messageCount := Number_of_bigint totalMessages in
      if messageCount =? 0 then Some (NothingToSync, st)
      else
        match connect st with
        | (inl e, st) => Some (Aborted (message e), st)
        | (inr _, st) =>
            match query CountAll (fun coll => length coll) st with
            | (inl e, st) => Some (Aborted (message e), st)
            | (inr existingCount, st) =>
                match sync_batches (Z.to_nat messageCount) ch messageCount 0
                                   {| syncedCount := 0; updatedCount := 0; skippedCount := 0 |}
                                   st with
                | None => None
                | Some (inl e, st) => Some (Aborted e, st)
                | Some (inr acc, st) =>
                    match query (Distinct "sender") distinct_senders st with
                    | (inl e, st) => Some (Aborted (message e), st)
                    | (inr senders, st) =>
                        Some (Completed {| total := messageCount;
                                           inserted := syncedCount acc;
                                           updated := updatedCount acc;
                                           unchanged := skippedCount acc;
                                           uniqueSenders := length senders |}, st)
                    end
                end
            end
        end
  end.

End SyncMessages.

(* ===================================================================== *)
(** ** Notions the properties are stated with                             *)
(* ===================================================================== *)

Module Props.
Import JS Mongo Storage Http.

(** *** Circuit breaker *)

(** [recordFailure] once per clock reading in [times], in order. *)
Definition record_failures (url : string) (times : list Z)
           (cbs : SafeFetch.Breakers) : SafeFetch.Breakers :=
  foldl (fun c t => SafeFetch.recordFailure url t c) cbs times.

(** The outcomes after which [safeFetch] calls [recordFailure]. *)
Definition counts_as_failure (net : SafeFetch.FetchResult) : bool :=
  match net with
  | SafeFetch.Responds status => negb (SafeFetch.ok status) && (500 <=? status)
  | SafeFetch.Rejects e =>
      bool_decide (SafeFetch.name e = "AbortError")
      || bool_decide (SafeFetch.name e = "TypeError")
  end.

(** [safeFetch] once per element of [calls], in order; an element gives
    the clock at the start, what the network does, and the clock at the
    end. *)
Definition fetch_all (url : string) (calls : list (Z * SafeFetch.FetchResult * Z))
           (cbs : SafeFetch.Breakers) : SafeFetch.Breakers :=
  foldl (fun c call =>
           SafeFetch.breakers
             (SafeFetch.safeFetch url (fst (fst call)) (snd (fst call)) (snd call) c))
        cbs calls.

(** *** Requests and responses *)

Definition page_of (req : MessagesRoute.Query) : number :=
  parseInt (or_default (MessagesRoute.q_page req) "1").

Definition limit_of (req : MessagesRoute.Query) : number :=
  parseInt (or_default (MessagesRoute.q_limit req) "20").

Definition address_ok (req : MessagesRoute.Query) : bool :=
  match MessagesRoute.q_address req with
  | Some a => is_address a
  | None => false
  end.

Definition list_mode (req : MessagesRoute.Query) : bool :=
  negb (bool_decide (MessagesRoute.q_count req = Some "true")).


(** A decimal numeral: one or more digits and nothing else. *)
Definition is_decimal (s : string) : bool :=
  negb (bool_decide (s = "")) && all_chars is_digit s.


(** [getMongoDb()] throws. *)
Definition connection_fails (st : Store) : bool :=
  negb (MONGODB_URI st)
  || (negb (cached st) && bool_decide (is_Some (fault st Connect))).

Definition call_fails (st : Store) (c : Call) : bool :=
  bool_decide (is_Some (fault st c)).

(** No call fails. *)
Definition healthy (st : Store) : Prop :=
  MONGODB_URI st = true ∧ ∀ c, fault st c = None.

(** The request gets past the four checks of [GET]. *)
Definition passes_validation (req : MessagesRoute.Query) : bool :=
  address_ok req
  && negb (lt (page_of req) (of_Z 1))
  && negb (lt (limit_of req) (of_Z 1) || gt (limit_of req) (of_Z 100)).

(** The store after a [getMongoDb()] that did not throw. *)
Definition connected (st : Store) : Store := snd (getMongoDb st).

(** The storage layer fails under [GET /api/messages]: the connection, or
    a query the handler makes for this request. *)
Definition read_fails (req : MessagesRoute.Query) (st : Store) : bool :=
  match MessagesRoute.q_address req with
  | Some a =>
      let n := toLowerCase a in
      connection_fails st
      || (if list_mode req
          then call_fails st (Find n (mul (sub (page_of req) (of_Z 1)) (limit_of req))
                                     (limit_of req))
               || call_fails st (CountDocuments n)
          else call_fails st (CountDocuments n))
  | None => false
  end.

(** The same under [GET /api/totalmsg/{address}]. *)
Definition count_fails (a : string) (st : Store) : bool :=
  connection_fails st || call_fails st (CountDocuments (toLowerCase a)).


(** The well-typed record the ingestion endpoint accepts: a non-zero
    number, an address, text that is not blank, a positive number. *)
Definition accepted_fields (fields : gmap string value) : bool :=
  match fields !! "messageId", fields !! "sender",
        fields !! "content", fields !! "timestamp" with
  | Some (Number (Num m)), Some (Str s), Some (Str c), Some (Number t) =>
      bool_decide (m <> 0%Qc) && is_address s
      && negb (bool_decide (trim c = "")) && lt (of_Z 0) t
  | _, _, _, _ => false
  end.

Definition accepted_body (req : MessagesRoute.Body) : bool :=
  match req with
  | MessagesRoute.JObject fields => accepted_fields fields
  | _ => false
  end.



(** The document [POST] writes for an accepted record. *)
Definition ingested_doc (now : Z) (fields : gmap string value) : Doc :=
  to_bson
    {[ "messageId" := MessagesRoute.prop fields "messageId";
       "sender" := match MessagesRoute.prop fields "sender" with
                   | Str s => Str (toLowerCase s)
                   | v => v
                   end;
       "content" := match MessagesRoute.prop fields "content" with
                    | Str c => Str (trim c)
                    | v => v
                    end;
       "timestamp" := MessagesRoute.prop fields "timestamp";
       "transactionHash" := MessagesRoute.prop fields "transactionHash";
       "createdAt" := new_Date (of_Z now) ]}.

(** *** The collection *)

(** The documents under the filter [{ messageId: id }], in storage order. *)
Definition with_id (id : number) (coll : list Doc) : list Doc :=
  filter (fun d => has_id id d = true) coll.

(** The one [updateOne({ messageId: id }, ...)] matches. *)
Definition first_with_id (id : number) (coll : list Doc) : option Doc :=
  head (with_id id coll).


(** The upsert finds no document for [id] and creates one. *)
Definition creates (id : number) (coll : list Doc) : bool :=
  match first_with_id id coll with
  | None => true
  | Some _ => false
  end.

(** The upsert finds a document for [id] and changes it. *)
Definition modifies (id : number) (set : Doc) (coll : list Doc) : bool :=
  match first_with_id id coll with
  | Some d => bool_decide (set ∪ d ≠ d)
  | None => false
  end.

(** Every operation's [$set] carries the [messageId] of its filter. *)
Definition well_keyed (ops : list (number * Doc)) : Prop :=
  Forall (fun op => snd op !! "messageId" = Some (Number (fst op))) ops.

(** The chain answers every call, and its log fits in a double. *)
Definition chain_up (ch : SyncMessages.Chain) : Prop :=
  (∀ c, SyncMessages.rpc_fault ch c = false)
  ∧ Z.of_nat (length (SyncMessages.ledger ch)) < 2 ^ 53.

(** No two ledger records come out with the same [messageId]. *)
Definition distinct_ids (ch : SyncMessages.Chain) : Prop :=
  NoDup (map (fun msg => fst (SyncMessages.bulkOp msg)) (SyncMessages.ledger ch)).


(** *** The breaker table over time *)

(** The tables [circuitBreakers] can hold: it is empty when the module is
    loaded, and only [resetCircuitBreakers], [shouldAllowRequest],
    [recordSuccess] and [recordFailure] write to it, each in one step
    that nothing interrupts; the calls of [safeFetch] that are in flight
    interleave these steps in any order. *)
Inductive reachable : SafeFetch.Breakers → Prop :=
| reachable_loaded : reachable ∅
| reachable_reset cbs :
    reachable cbs → reachable (SafeFetch.resetCircuitBreakers cbs)
| reachable_allow url now cbs :
    reachable cbs → reachable (snd (SafeFetch.shouldAllowRequest url now cbs))
| reachable_success url cbs :
    reachable cbs → reachable (SafeFetch.recordSuccess url cbs)
| reachable_failure url now cbs :
    reachable cbs → reachable (SafeFetch.recordFailure url now cbs).

(** The outcome after which [safeFetch] calls [recordSuccess]. *)
Definition is_success (net : SafeFetch.FetchResult) : bool :=
  match net with
  | SafeFetch.Responds status => SafeFetch.ok status
  | SafeFetch.Rejects _ => false
  end.

(** How many calls of a run end in a recorded failure. *)
Definition recorded (calls : list (Z * SafeFetch.FetchResult * Z)) : nat :=
  length (filter (fun call => counts_as_failure (snd (fst call)) = true) calls).

(** The breaker is open exactly when three failures or more are on
    record. *)
Definition consistent (b : SafeFetch.CircuitBreakerState) : Prop :=
  0 <= SafeFetch.failures b
  ∧ (SafeFetch.isOpen b = true
     ↔ SafeFetch.CIRCUIT_BREAKER_THRESHOLD <= SafeFetch.failures b).

(** *** The store over time *)

(** The connection and the two reads of a sender's documents. *)
Definition is_read (c : Call) : bool :=
  match c with
  | Connect | CountDocuments _ | Find _ _ _ => true
  | CountAll | Distinct _ | UpdateOne _ _ | BulkWrite _ => false
  end.

(** [st'] comes from [st] by calls that only read: the collection, the
    faults and the configuration are the same, and every call made in
    between is a read. *)
Definition reads (st st' : Store) : Prop :=
  messages st' = messages st
  ∧ fault st' = fault st
  ∧ MONGODB_URI st' = MONGODB_URI st
  ∧ ∃ new, calls st' = (new ++ calls st)%list
           ∧ Forall (fun c => is_read c = true) new.

(** The same process and collection with other faults. *)
Definition with_fault (f : Call → option MongoError) (st : Store) : Store :=
  {| MONGODB_URI := MONGODB_URI st; cached := cached st;
     messages := messages st; fault := f; calls := calls st |}.

(** The same query for another address. *)
Definition with_address (a : string) (req : MessagesRoute.Query)
  : MessagesRoute.Query :=
  {| MessagesRoute.q_address := Some a;
     MessagesRoute.q_count := MessagesRoute.q_count req;
     MessagesRoute.q_page := MessagesRoute.q_page req;
     MessagesRoute.q_limit := MessagesRoute.q_limit req |}.

(** The [messageId] a request body carries. *)
Definition body_id (req : MessagesRoute.Body) : option value :=
  match req with
  | MessagesRoute.JObject fields => fields !! "messageId"
  | _ => None
  end.






(** *** The client and the routes together *)

(** The messages API as the client reaches it when the network delivers
    every request and every response: [GET] and [POST] of
    [app/api/messages/route.ts] run on the store, and the body comes back
    as the JSON text of the response.  [now] is the clock of the
    server. *)
Definition served (now : Z) (req : MessagesApi.Request) (st : Store)
  : MessagesApi.Reply * Store :=
  match req with
  | MessagesApi.Get query =>
      let '(r, st) := MessagesRoute.GET query st in
      (MessagesApi.Answers (status r) (inr (Json.wire r)), st)
  | MessagesApi.Post fields =>
      let '(r, st) := MessagesRoute.POST now (MessagesRoute.JObject fields) st in
      (MessagesApi.Answers (status r) (inr (Json.wire r)), st)
  end.

(** The inputs [getMessages] turns down before it makes a request. *)
Definition turned_down (address : string) (page limit : Z) : bool :=
  bool_decide (address = "") || negb (is_address address)
  || (page <? 1) || (limit <? 1) || (100 <? limit).


(** [Number.isSafeInteger(n)]: the whole numbers up to which every whole
    number is a double of its own, printed with all its digits. *)
Definition safe_integer (n : Z) : Prop := - 2 ^ 53 < n < 2 ^ 53.

(** [n] as a JSON number. *)
Definition json_of_Z (n : Z) : Json.json := Json.JNumber (Q2Qc (inject_Z n)).

(** The ledger records sent from an address, compared as the reconciler
    stores it. *)
Definition sent_by (sender : string) (l : list SyncMessages.LedgerMessage)
  : list SyncMessages.LedgerMessage :=
  filter (fun msg => toLowerCase (SyncMessages.sender msg) = sender) l.

(** No stored document carries the [messageId] of a ledger record. *)
Definition none_stored (ch : SyncMessages.Chain) (coll : list Doc) : Prop :=
  Forall (fun msg => with_id (fst (SyncMessages.bulkOp msg)) coll = [])
         (SyncMessages.ledger ch).

End Props.

(* ===================================================================== *)
(** ** Sample data, used to exercise the statements                       *)
(* ===================================================================== *)

Module Samples.
Import JS Mongo Storage.

Definition address : string := "0x22D74ADFB45147d7588aFA3ba0eF1c363b7dFcFF".

Definition url : string := "/api/messages".

(** A running database with an empty collection. *)
Definition empty_store : Store :=
  {| MONGODB_URI := true; cached := false; messages := [];
     fault := fun _ => None; calls := [] |}.

(** A database that cannot be reached. *)
Definition unreachable_store : Store :=
  {| MONGODB_URI := true; cached := false; messages := [];
     fault := fun c => match c with
                       | Connect => Some {| code := None; message := "connect ECONNREFUSED" |}
                       | _ => None
                       end;
     calls := [] |}.

Definition query (count page limit : option string) : MessagesRoute.Query :=
  {| MessagesRoute.q_address := Some address;
     MessagesRoute.q_count := count;
     MessagesRoute.q_page := page;
     MessagesRoute.q_limit := limit |}.

(** A request body with the four required fields. *)
Definition record (messageId : number) (content : string) (timestamp : number)
  : gmap string value :=
  {[ "messageId" := Number messageId;
     "sender" := Str address;
     "content" := Str content;
     "timestamp" := Number timestamp ]}.

Definition open_breaker : SafeFetch.Breakers :=
  {[ url := {| SafeFetch.failures := 3;
               SafeFetch.lastFailureTime := 0;
               SafeFetch.isOpen := true |} ]}.

(** A ledger of 120 messages, three batches of the reconciler. *)
Definition ledger : list SyncMessages.LedgerMessage :=
  map (fun i => {| SyncMessages.messageId := N.of_nat i;
                   SyncMessages.sender := address;
                   SyncMessages.content := "gm";
                   SyncMessages.timestamp := 1700000000 + N.of_nat i |})
      (seq 0 120).

Definition chain : SyncMessages.Chain :=
  {| SyncMessages.ledger := ledger; SyncMessages.rpc_fault := fun _ => false |}.


End Samples.

(* ===================================================================== *)
(** ** Circuit breaker: lemmas                                            *)
(* ===================================================================== *)

Section Breaker.
Import SafeFetch Props.
Implicit Types (url : string) (cbs : Breakers) (b : CircuitBreakerState).

Lemma getCircuitBreaker_fst url cbs :
  fst (getCircuitBreaker url cbs) = breaker_of url cbs.
Proof. unfold getCircuitBreaker, breaker_of. by destruct (cbs !! url). Qed.

Lemma getCircuitBreaker_snd url cbs u :
  breaker_of u (snd (getCircuitBreaker url cbs)) = breaker_of u cbs.
Proof.
  unfold getCircuitBreaker, breaker_of.
  destruct (cbs !! url) eqn:E; [done|]. simpl.
  destruct (decide (url = u)) as [->|Hne].
  - by rewrite lookup_insert_eq, E.
  - by rewrite lookup_insert_ne.
Qed.

Lemma breaker_of_insert url b cbs : breaker_of url (<[url := b]> cbs) = b.
Proof. unfold breaker_of. by rewrite lookup_insert_eq. Qed.

Lemma breaker_of_insert_ne url u b cbs :
  url ≠ u → breaker_of u (<[url := b]> cbs) = breaker_of u cbs.
Proof. intros. unfold breaker_of. by rewrite lookup_insert_ne. Qed.

Lemma recordFailure_at url now cbs :
  breaker_of url (recordFailure url now cbs) =
  {| failures := failures (breaker_of url cbs) + 1;
     lastFailureTime := now;
     isOpen := if CIRCUIT_BREAKER_THRESHOLD <=? failures (breaker_of url cbs) + 1
               then true else isOpen (breaker_of url cbs) |}.
Proof.
  unfold recordFailure.
  destruct (getCircuitBreaker url cbs) as [b c] eqn:E.
  rewrite breaker_of_insert.
  pose proof (getCircuitBreaker_fst url cbs) as Hb. rewrite E in Hb. simpl in Hb.
  by subst b.
Qed.

Lemma recordSuccess_at url cbs :
  breaker_of url (recordSuccess url cbs) =
  {| failures := 0; lastFailureTime := lastFailureTime (breaker_of url cbs); isOpen := false |}.
Proof.
  unfold recordSuccess.
  destruct (getCircuitBreaker url cbs) as [b c] eqn:E.
  rewrite breaker_of_insert.
  pose proof (getCircuitBreaker_fst url cbs) as Hb. rewrite E in Hb. simpl in Hb.
  by subst b.
Qed.

Lemma shouldAllowRequest_closed url now cbs :
  isOpen (breaker_of url cbs) = false →
  fst (shouldAllowRequest url now cbs) = true ∧
  breaker_of url (snd (shouldAllowRequest url now cbs)) = breaker_of url cbs.
Proof.
  intros Hc. unfold shouldAllowRequest.
  destruct (getCircuitBreaker url cbs) as [b c] eqn:E.
  pose proof (getCircuitBreaker_fst url cbs) as Hb.
  pose proof (getCircuitBreaker_snd url cbs url) as Hs.
  rewrite E in Hb, Hs. simpl in Hb, Hs. subst b.
  rewrite Hc. simpl. done.
Qed.

Lemma shouldAllowRequest_cooled url now cbs :
  isOpen (breaker_of url cbs) = true →
  CIRCUIT_BREAKER_TIMEOUT < now - lastFailureTime (breaker_of url cbs) →
  fst (shouldAllowRequest url now cbs) = true ∧
  breaker_of url (snd (shouldAllowRequest url now cbs)) =
    {| failures := 0; lastFailureTime := lastFailureTime (breaker_of url cbs); isOpen := false |}.
Proof.
  intros Ho Ht. unfold shouldAllowRequest.
  destruct (getCircuitBreaker url cbs) as [b c] eqn:E.
  pose proof (getCircuitBreaker_fst url cbs) as Hb.
  rewrite E in Hb. simpl in Hb. subst b.
  rewrite Ho. simpl.
  destruct (Z.ltb_spec CIRCUIT_BREAKER_TIMEOUT (now - lastFailureTime (breaker_of url cbs))); [|lia].
  simpl. by rewrite breaker_of_insert.
Qed.

Lemma shouldAllowRequest_blocked url now cbs :
  isOpen (breaker_of url cbs) = true →
  now - lastFailureTime (breaker_of url cbs) <= CIRCUIT_BREAKER_TIMEOUT →
  shouldAllowRequest url now cbs = (false, cbs).
Proof.
  intros Ho Ht. unfold shouldAllowRequest, getCircuitBreaker.
  unfold breaker_of in Ho, Ht.
  destruct (cbs !! url) as [b|] eqn:E; simpl in *; [|done].
  rewrite Ho. simpl.
  by destruct (Z.ltb_spec CIRCUIT_BREAKER_TIMEOUT (now - lastFailureTime b)); [lia|].
Qed.

Lemma record_failures_at url times : ∀ cbs,
  let b := breaker_of url cbs in
  let b' := breaker_of url (record_failures url times cbs) in
  failures b' = failures b + Z.of_nat (length times) ∧
  isOpen b' = isOpen b || ((0 <? length times)%nat
                           && (CIRCUIT_BREAKER_THRESHOLD <=? failures b + Z.of_nat (length times))).
Proof.
  induction times as [|t ts IH]; intros cbs; simpl.
  - split; [lia|]. by rewrite orb_false_r.
  - specialize (IH (recordFailure url t cbs)). simpl in IH.
    fold (record_failures url ts (recordFailure url t cbs)).
    destruct IH as [IHf IHo]. rewrite IHf, IHo, recordFailure_at. simpl.
    split; [lia|].
    unfold CIRCUIT_BREAKER_THRESHOLD.
    destruct (isOpen (breaker_of url cbs)); simpl.
    + by destruct (3 <=? _).
    + destruct (Z.leb_spec 3 (failures (breaker_of url cbs) + 1)); simpl.
      * symmetry. apply Z.leb_le. lia.
      * destruct ts; simpl.
        -- symmetry. apply Z.leb_gt. lia.
        -- f_equal. lia.
Qed.
End Breaker.

Section BreakerClaims.
Import SafeFetch Props.

Lemma safeFetch_allowed url t0 net t1 cbs :
  fst (shouldAllowRequest url t0 cbs) = true →
  let cbs0 := snd (shouldAllowRequest url t0 cbs) in
  let o := safeFetch url t0 net t1 cbs in
  network o = [url] ∧
  breakers o =
    match net with
    | Responds status =>
        if ok status then recordSuccess url cbs0
        else if counts_as_failure net then recordFailure url t1 cbs0 else cbs0
    | Rejects _ => if counts_as_failure net then recordFailure url t1 cbs0 else cbs0
    end.
Proof.
  intros Ha. unfold safeFetch.
  destruct (shouldAllowRequest url t0 cbs) as [a c]. simpl in *. subst a. simpl.
  destruct net as [status|e]; simpl.
  - by destruct (ok status); simpl; [|destruct (500 <=? status)].
  - by destruct (_ || _).
Qed.

(** A call on a closed breaker that ends in a recorded failure. *)
Lemma safeFetch_failing url t0 net t1 cbs :
  isOpen (breaker_of url cbs) = false →
  counts_as_failure net = true →
  breaker_of url (breakers (safeFetch url t0 net t1 cbs))
  = {| failures := failures (breaker_of url cbs) + 1;
       lastFailureTime := t1;
       isOpen := CIRCUIT_BREAKER_THRESHOLD <=? failures (breaker_of url cbs) + 1 |}.
Proof.
  intros Hc Hnet.
  destruct (shouldAllowRequest_closed url t0 cbs Hc) as [Ha Hb].
  destruct (safeFetch_allowed url t0 net t1 cbs Ha) as [_ ->].
  assert (breaker_of url (recordFailure url t1 (snd (shouldAllowRequest url t0 cbs)))
          = {| failures := failures (breaker_of url cbs) + 1;
               lastFailureTime := t1;
               isOpen := CIRCUIT_BREAKER_THRESHOLD <=? failures (breaker_of url cbs) + 1 |})
    as Hr.
  { rewrite recordFailure_at, Hb, Hc. by destruct (_ <=? _). }
  rewrite Hnet. destruct net as [status|e]; [|done].
  unfold counts_as_failure in Hnet.
  by destruct (ok status).
Qed.

(** A run of calls that all end in a recorded failure, as long as the
    threshold is not passed. *)
Lemma fetch_all_failing url calls : ∀ cbs,
  isOpen (breaker_of url cbs) = false →
  Forall (fun call => counts_as_failure (snd (fst call)) = true) calls →
  failures (breaker_of url cbs) + Z.of_nat (length calls) <= CIRCUIT_BREAKER_THRESHOLD →
  let b' := breaker_of url (fetch_all url calls cbs) in
  failures b' = failures (breaker_of url cbs) + Z.of_nat (length calls)
  ∧ isOpen b' = (0 <? length calls)%nat
                && (CIRCUIT_BREAKER_THRESHOLD
                      <=? failures (breaker_of url cbs) + Z.of_nat (length calls)).
Proof.
  induction calls as [|[[t0 net] t1] calls IH]; intros cbs Hc Hall Hlen.
  - cbn. split; [lia|done].
  - apply Forall_cons in Hall as [Hnet Hall]. cbn [fst snd] in Hnet.
    pose proof (safeFetch_failing url t0 net t1 cbs Hc Hnet) as Hstep.
    cbn [fetch_all foldl fst snd].
    fold (fetch_all url calls (breakers (safeFetch url t0 net t1 cbs))).
    set (cbs1 := breakers (safeFetch url t0 net t1 cbs)) in *.
    destruct calls as [|call calls].
    + cbn [fetch_all foldl length]. rewrite Hstep. cbn. split; [lia|done].
    + assert (isOpen (breaker_of url cbs1) = false) as Hc1.
      { rewrite Hstep. cbn [isOpen]. apply Z.leb_gt.
        cbn [length] in Hlen. unfold CIRCUIT_BREAKER_THRESHOLD in *. lia. }
      destruct (IH cbs1 Hc1 Hall) as [Hf Ho].
      { rewrite Hstep. cbn [failures length] in *. lia. }
      cbv zeta in *. rewrite Hf, Ho, Hstep. cbn [failures].
      split; [cbn [length]; lia|].
      cbn [length Nat.ltb Nat.leb andb]. f_equal. lia.
Qed.

(** Claim C3 (circuit breaker fail-fast).  Counting from a breaker that
    is closed with no failure on record, the breaker of a URL is open
    after a run of [recordFailure] exactly when the run has at least
    three of them, and after up to three [safeFetch] calls that each end
    in a recorded failure exactly when there were three.  And a
    [safeFetch] made while the breaker is open and at most 60 seconds
    have passed since the last recorded failure throws the circuit-open
    error, leaves the table as it was and never calls [fetch]. *)
Theorem breaker_fail_fast url (cbs cbs_open : Breakers) (times : list Z)
        (calls : list (Z * FetchResult * Z)) t0 net t1 :
  failures (breaker_of url cbs) = 0 →
  isOpen (breaker_of url cbs) = false →
  Forall (fun call => counts_as_failure (snd (fst call)) = true) calls →
  (length calls <= 3)%nat →
  isOpen (breaker_of url cbs_open) = true →
  t0 - lastFailureTime (breaker_of url cbs_open) <= CIRCUIT_BREAKER_TIMEOUT →
  (isOpen (breaker_of url (record_failures url times cbs)) = true
     ↔ (3 <= length times)%nat)
  ∧ (isOpen (breaker_of url (fetch_all url calls cbs)) = true ↔ length calls = 3%nat)
  ∧ safeFetch url t0 net t1 cbs_open =
      {| completion := Throws circuit_open_error; breakers := cbs_open; network := [] |}.
Proof.
  intros Hf Hc Hall Hlen Ho Ht. split; [|split].
  - destruct (record_failures_at url times cbs) as [_ ->].
    rewrite Hf, Hc. unfold CIRCUIT_BREAKER_THRESHOLD. cbn [orb].
    destruct times as [|t times]; cbn [length Nat.ltb Nat.leb andb]; [split; [done|lia]|].
    rewrite Z.leb_le. lia.
  - destruct (fetch_all_failing url calls cbs Hc Hall) as [_ ->].
    { rewrite Hf. unfold CIRCUIT_BREAKER_THRESHOLD. lia. }
    rewrite Hf. unfold CIRCUIT_BREAKER_THRESHOLD.
    destruct calls as [|c calls]; cbn [length Nat.ltb Nat.leb andb] in Hlen |- *; [done|].
    rewrite Z.leb_le. lia.
  - unfold safeFetch. by rewrite (shouldAllowRequest_blocked _ _ _ Ho Ht).
Qed.

Lemma breaker_fail_fast_witness :
  let calls := [(10, Responds 503, 20); (30, Rejects network_error, 40);
                (50, Responds 500, 60)] in
  let cbs_open := fetch_all Samples.url calls ∅ in
  (isOpen (breaker_of Samples.url (record_failures Samples.url [20; 40; 60; 80] ∅)) = true
     ↔ (3 <= 4)%nat)
  ∧ (isOpen (breaker_of Samples.url (fetch_all Samples.url calls ∅)) = true
       ↔ length calls = 3%nat)
  ∧ safeFetch Samples.url 60060 (Responds 200) 60061 cbs_open =
      {| completion := Throws circuit_open_error; breakers := cbs_open; network := [] |}.
Proof.
  intros calls cbs_open.
  apply (breaker_fail_fast Samples.url ∅ cbs_open [20; 40; 60; 80] calls
           60060 (Responds 200) 60061).
  - reflexivity.
  - reflexivity.
  - repeat constructor.
  - simpl. lia.
  - vm_compute. reflexivity.
  - vm_compute. discriminate.
Defined.

(** Claim C2, as stated, fails.  The breaker is open and the cool-down is
    over; the call let through gets a 500.  The breaker is then closed
    with one failure on record, not open, and the call that follows is
    sent to the network as well. *)
Lemma failed_probe_leaves_breaker_closed :
  let probe := safeFetch Samples.url 60001 (Responds 500) 60002 Samples.open_breaker in
  let next := safeFetch Samples.url 60003 (Responds 500) 60004 (breakers probe) in
  network probe = [Samples.url]
  ∧ breaker_of Samples.url (breakers probe)
      = {| failures := 1; lastFailureTime := 60002; isOpen := false |}
  ∧ network next = [Samples.url]
  ∧ completion next = Returns 500.
Proof. vm_compute. repeat split. Qed.

(** Claim C2 (amended).  When the breaker for a URL is open and more than
    60 seconds have passed since the last recorded failure, the next
    [safeFetch] is sent to the network, the breaker having been reset to
    closed with a failure count of 0 before the request is made.  If the
    request then ends in a recorded failure the count is 1, the failure
    clock is the time of that failure and the breaker stays closed; in
    every other case, success included, it is closed with a count of 0. *)
Theorem cooldown_resets_breaker url cbs t0 net t1 :
  isOpen (breaker_of url cbs) = true →
  CIRCUIT_BREAKER_TIMEOUT < t0 - lastFailureTime (breaker_of url cbs) →
  let o := safeFetch url t0 net t1 cbs in
  network o = [url]
  ∧ breaker_of url (breakers o) =
      (if counts_as_failure net
       then {| failures := 1; lastFailureTime := t1; isOpen := false |}
       else {| failures := 0;
               lastFailureTime := lastFailureTime (breaker_of url cbs);
               isOpen := false |}).
Proof.
  intros Ho Ht.
  destruct (shouldAllowRequest_cooled url t0 cbs Ho Ht) as [Ha Hb].
  destruct (safeFetch_allowed url t0 net t1 cbs Ha) as [Hn Hs].
  split; [done|]. cbv zeta. rewrite Hs. clear Hs Hn.
  destruct net as [status|e].
  - unfold counts_as_failure. destruct (ok status); simpl.
    + by rewrite recordSuccess_at, Hb.
    + destruct (500 <=? status); [|done].
      by rewrite recordFailure_at, Hb.
  - destruct (counts_as_failure (Rejects e)); [|done].
    by rewrite recordFailure_at, Hb.
Qed.

Lemma cooldown_resets_breaker_witness :
  let o := safeFetch Samples.url 60001 (Responds 200) 60002 Samples.open_breaker in
  network o = [Samples.url]
  ∧ breaker_of Samples.url (breakers o) =
      {| failures := 0; lastFailureTime := 0; isOpen := false |}.
Proof.
  intros o.
  assert (H1 : isOpen (breaker_of Samples.url Samples.open_breaker) = true) by reflexivity.
  assert (H2 : CIRCUIT_BREAKER_TIMEOUT
               < 60001 - lastFailureTime (breaker_of Samples.url Samples.open_breaker))
    by reflexivity.
  exact (cooldown_resets_breaker Samples.url Samples.open_breaker
           60001 (Responds 200) 60002 H1 H2).
Defined.

(** Claim C4: the code misses the time-out.  A request cut off by
    [AbortSignal.timeout(10000)] rejects with an error named
    [TimeoutError]; [safeFetch] tests for [AbortError] and [TypeError]
    only, so it rethrows the error without [recordFailure]: the table is
    the one [shouldAllowRequest] left.  Three requests in a row that
    time out leave the breaker of the URL closed with no failure on
    record, and the third one is still sent to the network. *)
Theorem timeout_is_not_recorded url t0 t1 cbs :
  breakers (safeFetch url t0 (Rejects timeout_error) t1 cbs)
  = snd (shouldAllowRequest url t0 cbs)
  ∧ (let o1 := safeFetch Samples.url 0 (Rejects timeout_error) 10000 ∅ in
     let o2 := safeFetch Samples.url 10001 (Rejects timeout_error) 20001 (breakers o1) in
     let o3 := safeFetch Samples.url 20002 (Rejects timeout_error) 30002 (breakers o2) in
     completion o3 = Throws timeout_error
     ∧ network o3 = [Samples.url]
     ∧ breaker_of Samples.url (breakers o3) = fresh).
Proof.
  split; [|by vm_compute].
  unfold safeFetch. by destruct (shouldAllowRequest url t0 cbs) as [[] c].
Qed.
End BreakerClaims.

(* ===================================================================== *)
(** ** Numbers: integers among the JavaScript numbers                     *)
(* ===================================================================== *)

Section Numbers.
Import JS Props.

Lemma this_of_Z_eq (z : Z) : (this (Q2Qc (inject_Z z)) == inject_Z z)%Q.
Proof. simpl. apply Qred_correct. Qed.


Lemma lt_of_Z a b : lt (of_Z a) (of_Z b) = bool_decide (a < b).
Proof.
  unfold lt, of_Z. apply bool_decide_ext.
  unfold Qclt. rewrite !this_of_Z_eq. by rewrite Zlt_Qlt.
Qed.

Lemma le_of_Z a b : le (of_Z a) (of_Z b) = bool_decide (a <= b).
Proof.
  unfold le, of_Z. apply bool_decide_ext.
  unfold Qcle. rewrite !this_of_Z_eq. by rewrite Zle_Qle.
Qed.







End Numbers.

(* ===================================================================== *)
(** ** Reading a JSON response                                            *)
(* ===================================================================== *)

Section Json.
Import Http.

Lemma json_status s fields : status (json s fields) = s.
Proof. done. Qed.

Lemma json_here s k v fields : body (json s ((k, v) :: fields)) !! k = Some v.
Proof. unfold json. cbn [body list_to_map foldr fst snd]. apply lookup_insert_eq. Qed.

Lemma json_next s k k' v fields :
  k' ≠ k → body (json s ((k', v) :: fields)) !! k = body (json s fields) !! k.
Proof.
  intros H. unfold json. cbn [body list_to_map foldr fst snd].
  by apply lookup_insert_ne.
Qed.
End Json.

(** Reads a field, or the status, off a response built by [json]. *)
Ltac json_field :=
  cbn [fst snd];
  first
    [ apply json_status
    | repeat (rewrite json_next by discriminate); apply json_here ].

(* ===================================================================== *)
(** ** Storage calls: lemmas                                              *)
(* ===================================================================== *)

Section StorageFacts.
Import JS Mongo Storage Props.
Implicit Types (st : Store) (c : Call).

Lemma getMongoDb_fails st :
  connection_fails st = true → ∃ e, getMongoDb st = (inl e, connected st).
Proof.
  unfold connection_fails, connected, getMongoDb. intros H.
  destruct (MONGODB_URI st); simpl in *; [|eauto].
  destruct (cached st); simpl in *; [done|].
  apply bool_decide_eq_true in H as [e He]. rewrite He. eauto.
Qed.

Lemma getMongoDb_ok st :
  connection_fails st = false →
  getMongoDb st = (inr tt, connected st)
  ∧ messages (connected st) = messages st
  ∧ fault (connected st) = fault st
  ∧ MONGODB_URI (connected st) = MONGODB_URI st
  ∧ (calls (connected st) = calls st ∨ calls (connected st) = Connect :: calls st).
Proof.
  unfold connection_fails, connected, getMongoDb. intros H.
  destruct (MONGODB_URI st) eqn:EU; simpl in H; [|done].
  destruct (cached st) eqn:EC; simpl in H.
  - simpl. rewrite EU. by auto 10.
  - apply bool_decide_eq_false in H. simpl.
    destruct (fault st Connect) eqn:E; [by destruct H; eauto|].
    simpl. rewrite EU. by auto 10.
Qed.

Lemma query_fails {A} c (run : list Doc → A) st :
  call_fails st c = true → ∃ e, query c run st = (inl e, log c st).
Proof.
  unfold call_fails, query, perform. intros H.
  apply bool_decide_eq_true in H as [e He]. simpl. rewrite He. eauto.
Qed.

Lemma query_ok {A} c (run : list Doc → A) st :
  fault st c = None → query c run st = (inr (run (messages st)), log c st).
Proof.
  unfold query, perform. intros H. simpl. rewrite H. by destruct st.
Qed.

Lemma perform_ok {A} c (run : list Doc → A * list Doc) st :
  fault st c = None →
  perform c run st = (inr (fst (run (messages st))),
                      set_messages (snd (run (messages st))) (log c st)).
Proof.
  unfold perform. intros H. simpl. rewrite H. by destruct (run (messages st)).
Qed.

Lemma find_fails sender skip limit st :
  call_fails st (Find sender skip limit) = true →
  ∃ e, find sender skip limit st = (inl e, log (Find sender skip limit) st).
Proof.
  intros H. unfold find.
  destruct (as_count skip), (as_count limit); eauto using query_fails.
Qed.
End StorageFacts.

(* ===================================================================== *)
(** ** GET /api/messages and GET /api/totalmsg: properties                *)
(* ===================================================================== *)

Section ReadPath.
Import JS Mongo Storage Http Props.
Import MessagesRoute.

Lemma passes_validation_inv req :
  passes_validation req = true →
  ∃ c a, q_address req = Some (String c a)
         ∧ is_address (String c a) = true
         ∧ lt (page_of req) (of_Z 1) = false
         ∧ lt (limit_of req) (of_Z 1) || gt (limit_of req) (of_Z 100) = false.
Proof.
  unfold passes_validation, address_ok. intros H.
  apply andb_true_iff in H as [H Hl]. apply andb_true_iff in H as [Ha Hp].
  apply negb_true_iff in Hl, Hp.
  destruct (q_address req) as [[|c a]|]; try done. by exists c, a.
Qed.

(** Unfolds [GET] on a request that passes validation, leaving the
    [getMongoDb] step at the head of the goal. *)
Ltac past_validation req H :=
  let c := fresh "c" in let a := fresh "a" in
  let Ha := fresh "Ha" in let Hm := fresh "Hm" in
  let Hp := fresh "Hp" in let Hl := fresh "Hl" in
  destruct (passes_validation_inv _ H) as (c & a & Ha & Hm & Hp & Hl);
  unfold GET; cbv zeta;
  change (parseInt (or_default (q_page req) "1")) with (page_of req);
  change (parseInt (or_default (q_limit req) "20")) with (limit_of req);
  rewrite Ha, Hm, Hp, Hl; cbn [negb].

(** Claim C7 (amended).  A [GET /api/messages] whose address is missing
    or does not match [^0x[a-fA-F0-9]{40}$], or whose page, as [parseInt]
    reads it (1 when absent or empty), is a number below 1, or whose
    limit, as [parseInt] reads it (20 when absent or empty), is a number
    below 1 or above 100, is answered with status 400 and
    [success: false], and the store is left untouched: no storage call
    is made. *)
Theorem validation_precedes_storage req st :
  address_ok req = false
  ∨ lt (page_of req) (of_Z 1) = true
  ∨ lt (limit_of req) (of_Z 1) = true
  ∨ gt (limit_of req) (of_Z 100) = true →
  let r := GET req st in
  status (fst r) = 400
  ∧ body (fst r) !! "success" = Some (FBool false)
  ∧ snd r = st.
Proof.
  intros H. unfold GET. cbv zeta.
  change (parseInt (or_default (q_page req) "1")) with (page_of req).
  change (parseInt (or_default (q_limit req) "20")) with (limit_of req).
  unfold address_ok in H.
  destruct (q_address req) as [[|c a]|];
    [by repeat split; json_field| |by repeat split; json_field].
  destruct (is_address (String c a)); cbn [negb]; [|by repeat split; json_field].
  destruct (lt (page_of req) (of_Z 1)); [by repeat split; json_field|].
  destruct (lt (limit_of req) (of_Z 1)); [by repeat split; json_field|].
  destruct (gt (limit_of req) (of_Z 100)); [by repeat split; json_field|].
  by destruct H as [H|[H|[H|H]]].
Qed.


Lemma call_fails_connected st c :
  connection_fails st = false → call_fails (connected st) c = call_fails st c.
Proof.
  intros Hc. destruct (getMongoDb_ok st Hc) as (_ & _ & Hfault & _).
  unfold call_fails. by rewrite Hfault.
Qed.

Lemma find_store sender skip limit st :
  snd (find sender skip limit st) = log (Find sender skip limit) st.
Proof.
  unfold find, query, perform.
  destruct (as_count skip), (as_count limit); try done.
  simpl. destruct (fault st _); [done|]. by destruct st.
Qed.





Lemma validation_precedes_storage_witness :
  let r := GET (Samples.query None (Some "0") None) Samples.empty_store in
  status (fst r) = 400
  ∧ body (fst r) !! "success" = Some (FBool false)
  ∧ snd r = Samples.empty_store.
Proof.
  apply (validation_precedes_storage (Samples.query None (Some "0") None)
           Samples.empty_store).
  right. left. vm_compute. reflexivity.
Defined.

(** Claim C7, as stated, fails.  The limit [12abc] is not a number, yet
    the request is served, with limit 12 and two storage queries; the
    limit [abc] is no integer of [1,100], yet the request is not rejected
    and a [find] is issued. *)
Lemma malformed_limit_is_coerced :
  let r := GET (Samples.query None None (Some "12abc")) Samples.empty_store in
  let r' := GET (Samples.query None None (Some "abc")) Samples.empty_store in
  is_decimal "12abc" = false
  ∧ status (fst r) = 200
  ∧ body (fst r) !! "success" = Some (FBool true)
  ∧ body (fst r) !! "pagination"
      = Some (FPagination (of_Z 1) (of_Z 12) (of_Z 0) (of_Z 0))
  ∧ calls (snd r)
      = [CountDocuments (toLowerCase Samples.address);
         Find (toLowerCase Samples.address) (of_Z 0) (of_Z 12);
         Connect]
  ∧ as_integer (limit_of (Samples.query None None (Some "abc"))) = None
  ∧ status (fst r') = 200
  ∧ calls (snd r')
      = [Find (toLowerCase Samples.address) NaN NaN; Connect].
Proof. vm_compute. repeat split. Qed.


Lemma or_default_given s d : s ≠ "" → or_default (Some s) d = s.
Proof. intros H. unfold or_default. by rewrite bool_decide_eq_false_2. Qed.




Lemma countDocuments_ok sender st :
  fault st (CountDocuments sender) = None →
  countDocuments sender st
  = (inr (Mongo.countDocuments sender (messages st)), log (CountDocuments sender) st).
Proof. apply query_ok. Qed.



End ReadPath.

(* ===================================================================== *)
(** ** The collection under upserts: lemmas                               *)
(* ===================================================================== *)

Section Upserts.
Import JS Mongo Props.
Implicit Types (id : number) (set d : Doc) (coll : list Doc).

Lemma with_id_cons id d coll :
  with_id id (d :: coll)
  = if has_id id d then d :: with_id id coll else with_id id coll.
Proof.
  unfold with_id.
  destruct (has_id id d) eqn:E.
  - by rewrite filter_cons_True.
  - rewrite filter_cons_False; [done|]. by rewrite E.
Qed.

Lemma first_with_id_cons id d coll :
  first_with_id id (d :: coll)
  = if has_id id d then Some d else first_with_id id coll.
Proof. unfold first_with_id. rewrite with_id_cons. by destruct (has_id id d). Qed.




Lemma has_id_union_other id id' set d :
  set !! "messageId" = Some (Number id) → id' ≠ id → has_id id' (set ∪ d) = false.
Proof.
  intros H Hne. apply bool_decide_eq_false.
  rewrite (lookup_union_Some_l _ _ _ _ H). congruence.
Qed.

Lemma has_id_inserted id set :
  set !! "messageId" = Some (Number id) →
  set ∪ {[ "messageId" := Number id ]} = set.
Proof.
  intros H. apply map_eq. intros k.
  destruct (set !! k) as [v|] eqn:E.
  - by apply lookup_union_Some_l.
  - rewrite lookup_union_r by done.
    apply lookup_singleton_None. intros <-. congruence.
Qed.

(** What the three counters say. *)
Lemma updateOne_counts id set coll :
  snd (updateOne id set coll)
  = {| matchedCount := if creates id coll then 0 else 1;
       modifiedCount := if modifies id set coll then 1 else 0;
       upsertedCount := if creates id coll then 1 else 0 |}.
Proof.
  unfold creates, modifies.
  induction coll as [|d coll IH]; [done|].
  rewrite first_with_id_cons. cbn [updateOne].
  destruct (has_id id d).
  - simpl. destruct (decide (set ∪ d = d)).
    + by rewrite bool_decide_eq_false_2 by naive_solver.
    + by rewrite bool_decide_eq_true_2.
  - by destruct (updateOne id set coll).
Qed.

Lemma updateOne_length id set coll :
  length (fst (updateOne id set coll))
  = if creates id coll then S (length coll) else length coll.
Proof.
  unfold creates.
  induction coll as [|d coll IH]; [done|].
  rewrite first_with_id_cons. cbn [updateOne].
  destruct (has_id id d); [done|].
  destruct (updateOne id set coll). simpl in *. rewrite IH.
  by destruct (first_with_id id coll).
Qed.


(** Documents under another [messageId] are not touched. *)
Lemma updateOne_with_id_other id id' set coll :
  set !! "messageId" = Some (Number id) → id' ≠ id →
  with_id id' (fst (updateOne id set coll)) = with_id id' coll.
Proof.
  intros Hs Hne.
  induction coll as [|d coll IH].
  - cbn [updateOne fst]. rewrite has_id_inserted by done.
    rewrite with_id_cons.
    assert (has_id id' set = false) as ->; [|done].
    apply bool_decide_eq_false. congruence.
  - cbn [updateOne].
    destruct (has_id id d) eqn:E.
    + cbn [fst]. rewrite !with_id_cons.
      rewrite (has_id_union_other id id') by done.
      assert (has_id id' d = false) as ->; [|done].
      apply bool_decide_eq_true in E. apply bool_decide_eq_false. congruence.
    + destruct (updateOne id set coll) as [coll' r]. cbn [fst] in *.
      rewrite !with_id_cons, IH. done.
Qed.



End Upserts.

(* ===================================================================== *)
(** ** POST /api/messages: properties                                     *)
(* ===================================================================== *)

Section Ingestion.
Import JS Mongo Storage Http Props.
Import MessagesRoute.

Lemma positive_checks t :
  lt (of_Z 0) t = true ↔ truthy (Number t) = true ∧ le t (of_Z 0) = false.
Proof.
  destruct t as [|q]; [by split; [|intros []]|].
  unfold lt, le, of_Z, truthy.
  change (Q2Qc (inject_Z 0)) with 0%Qc.
  rewrite bool_decide_eq_true, bool_decide_eq_true, bool_decide_eq_false.
  split.
  - intros H. split.
    + intros ->. by apply Qclt_not_eq in H.
    + by apply Qclt_not_le.
  - intros [_ H]. by apply Qcnot_le_lt.
Qed.

Lemma is_address_nonempty s : is_address s = true → s ≠ "".
Proof. by intros H ->. Qed.

Lemma trim_nonempty c : trim c ≠ "" → c ≠ "".
Proof. by intros H ->. Qed.

(** Claim C9.  A [POST /api/messages] whose body has [messageId] 0 or
    [timestamp] 0 is answered with status 400 and the error
    [Missing required fields: messageId, sender, content, timestamp],
    whatever the other fields are, and the store is left untouched: such
    a record is never written. *)
Theorem zero_id_or_timestamp_is_missing now fields st :
  fields !! "messageId" = Some (Number (of_Z 0))
  ∨ fields !! "timestamp" = Some (Number (of_Z 0)) →
  let r := POST now (JObject fields) st in
  status (fst r) = 400
  ∧ body (fst r) !! "error"
      = Some (FStr "Missing required fields: messageId, sender, content, timestamp")
  ∧ snd r = st.
Proof.
  intros H. unfold POST, prop.
  assert (negb (truthy (default Undefined (fields !! "messageId")))
          || negb (truthy (default Undefined (fields !! "sender")))
          || negb (truthy (default Undefined (fields !! "content")))
          || negb (truthy (default Undefined (fields !! "timestamp"))) = true) as Hf.
  { destruct H as [-> | ->]; simpl; [done|]. by rewrite !orb_true_r. }
  rewrite Hf. cbv zeta. repeat split; json_field.
Qed.

Lemma zero_id_or_timestamp_is_missing_witness :
  let r := POST 1700000000000 (JObject (Samples.record (of_Z 0) "gm" (of_Z 1700000000)))
                Samples.empty_store in
  status (fst r) = 400
  ∧ body (fst r) !! "error"
      = Some (FStr "Missing required fields: messageId, sender, content, timestamp")
  ∧ snd r = Samples.empty_store.
Proof.
  apply (zero_id_or_timestamp_is_missing 1700000000000
           (Samples.record (of_Z 0) "gm" (of_Z 1700000000)) Samples.empty_store).
  left. vm_compute. reflexivity.
Defined.

(** What the four checks of [POST] let through. *)
Lemma accepted_fields_inv fields :
  accepted_fields fields = true →
  ∃ m s c t,
    fields !! "messageId" = Some (Number (Num m)) ∧ m ≠ 0%Qc
    ∧ fields !! "sender" = Some (Str s) ∧ is_address s = true
    ∧ fields !! "content" = Some (Str c) ∧ trim c ≠ ""
    ∧ fields !! "timestamp" = Some (Number t) ∧ lt (of_Z 0) t = true.
Proof.
  unfold accepted_fields. intros H.
  destruct (fields !! "messageId") as [[| | |[|m]| | |]|]; try done.
  destruct (fields !! "sender") as [[| | | |s| |]|]; try done.
  destruct (fields !! "content") as [[| | | |c| |]|]; try done.
  destruct (fields !! "timestamp") as [[| | |t| | |]|]; try done.
  apply andb_true_iff in H as [H Ht]. apply andb_true_iff in H as [H Hc].
  apply andb_true_iff in H as [Hm Hs].
  apply bool_decide_eq_true in Hm. apply negb_true_iff, bool_decide_eq_false in Hc.
  by exists m, s, c, t.
Qed.

Lemma POST_rejects now req st :
  accepted_body req = false →
  (status (fst (POST now req st)) = 400 ∨ status (fst (POST now req st)) = 500)
  ∧ snd (POST now req st) = st.
Proof.
  intros Hr.
  destruct req as [| |fields|]; [by split; [left|] | by split; [right|] | | by split; [left|]].
  simpl in Hr. unfold POST, prop. cbv zeta.
  destruct (negb (truthy (default Undefined (fields !! "messageId"))) || _ || _ || _) eqn:Ht;
    [by split; [left|]|].
  apply orb_false_iff in Ht as [Ht Ht4]. apply orb_false_iff in Ht as [Ht Ht3].
  apply orb_false_iff in Ht as [Ht1 Ht2].
  apply negb_false_iff in Ht1, Ht2, Ht3, Ht4.
  unfold accepted_fields in Hr.
  destruct (fields !! "messageId") as [[| | |n| | |]|]; try done;
    simpl in Ht1 |- *; try (by split; [left|]).
  destruct (fields !! "sender") as [[| | | |s| |]|]; try done;
    simpl in Ht2 |- *; try (by split; [right|]).
  destruct (is_address s) eqn:Hs; cbn [negb]; [|by split; [left|]].
  destruct (fields !! "content") as [[| | | |c| |]|]; try done;
    simpl in Ht3 |- *; try (by split; [left|]).
  destruct (bool_decide (trim c = "")) eqn:Hc; [by split; [left|]|].
  destruct (fields !! "timestamp") as [[| | |t| | |]|]; try done;
    simpl in Ht4 |- *; try (by split; [left|]).
  destruct (le t (of_Z 0)) eqn:Hle; [by split; [left|]|].
  exfalso.
  destruct n as [|m]; [done|].
  assert (lt (of_Z 0) t = true) as Hlt by (by apply positive_checks).
  rewrite Hlt in Hr. simpl in Ht1. rewrite Ht1 in Hr. done.
Qed.


Lemma ingested_doc_id now fields id :
  fields !! "messageId" = Some (Number id) →
  ingested_doc now fields !! "messageId" = Some (Number id).
Proof.
  intros H. unfold ingested_doc, to_bson, prop.
  by rewrite lookup_fmap, lookup_insert_eq, H.
Qed.






End Ingestion.

(* ===================================================================== *)
(** ** The reconciler: lemmas                                             *)
(* ===================================================================== *)

Section Reconciler.
Import JS Mongo Storage Props.
Import SyncMessages.
Implicit Types (ops : list (number * Doc)) (coll : list Doc).

Lemma add_result_no_result_l r : add_result no_result r = r.
Proof. by destruct r. Qed.

Lemma add_result_assoc a b c :
  add_result a (add_result b c) = add_result (add_result a b) c.
Proof. unfold add_result. simpl. f_equal; lia. Qed.

Lemma bulkWrite_app ops1 ops2 coll :
  Mongo.bulkWrite (ops1 ++ ops2)%list coll
  = (fst (Mongo.bulkWrite ops2 (fst (Mongo.bulkWrite ops1 coll))),
     add_result (snd (Mongo.bulkWrite ops1 coll))
                (snd (Mongo.bulkWrite ops2 (fst (Mongo.bulkWrite ops1 coll))))).
Proof.
  revert coll. induction ops1 as [|[id set] ops1 IH]; intros coll.
  - simpl. rewrite add_result_no_result_l. by destruct (Mongo.bulkWrite ops2 coll).
  - simpl. destruct (Mongo.updateOne id set coll) as [c1 r1].
    rewrite IH. destruct (Mongo.bulkWrite ops1 c1) as [c2 r2]. simpl.
    by rewrite add_result_assoc.
Qed.




Lemma messageDoc_id msg :
  messageDoc msg !! "messageId" = Some (Number (fst (bulkOp msg))).
Proof. unfold messageDoc, bulkOp. cbn [fst]. by rewrite lookup_insert_eq. Qed.

Lemma bulkOps_well_keyed msgs : well_keyed (map bulkOp msgs).
Proof.
  unfold well_keyed. apply Forall_map, Forall_forall. intros msg _.
  apply messageDoc_id.
Qed.

Lemma Number_of_bigint_small n : (n < 2 ^ 53)%N → Number_of_bigint n = Z.of_N n.
Proof.
  intros H. unfold Number_of_bigint.
  destruct (N.leb_spec (N.size n) 53) as [|Hgt]; [done|]. exfalso.
  pose proof (N.size_le n) as Hle. rewrite N.succ_double_spec in Hle.
  assert (2 ^ 54 <= 2 ^ N.size n)%N as H54 by (apply N.pow_le_mono_r; lia).
  replace (2 ^ 54)%N with (2 * 2 ^ 53)%N in H54 by reflexivity.
  set (b := (2 ^ 53)%N) in *. set (p := (2 ^ N.size n)%N) in *. lia.
Qed.

Lemma count_batch_add acc r1 r2 :
  count_batch (count_batch acc r1) r2 = count_batch acc (add_result r1 r2).
Proof. unfold count_batch, add_result. simpl. f_equal; lia. Qed.

Lemma count_batch_no_result acc : count_batch acc no_result = acc.
Proof. destruct acc. unfold count_batch. simpl. f_equal; lia. Qed.

Lemma bulkWrite_ok ops st :
  fault st (BulkWrite ops) = None →
  bulkWrite ops st
  = (inr (snd (Mongo.bulkWrite ops (messages st))),
     set_messages (fst (Mongo.bulkWrite ops (messages st))) (log (BulkWrite ops) st)).
Proof.
  intros H. unfold bulkWrite. rewrite perform_ok by done.
  by destruct (Mongo.bulkWrite ops (messages st)).
Qed.

Lemma batch_split (X : list LedgerMessage) :
  (take (Z.to_nat (Z.min BATCH_SIZE (Z.of_nat (length X)))) X ++ drop 50 X)%list = X.
Proof.
  unfold BATCH_SIZE.
  destruct (Z.le_ge_cases 50 (Z.of_nat (length X))).
  - rewrite Z.min_l by done. change (Z.to_nat 50) with 50%nat. apply take_drop.
  - rewrite Z.min_r by done. rewrite Nat2Z.id, firstn_all, drop_ge by lia.
    apply app_nil_r.
Qed.

(** On a healthy chain and store the loop from [start] finishes, having
    written the rest of the ledger as one sequence of upserts. *)
Lemma sync_batches_healthy ch fuel : ∀ start acc st,
  (∀ c, rpc_fault ch c = false) → (∀ c, fault st c = None) →
  0 <= start →
  Z.of_nat (length (ledger ch)) - start <= Z.of_nat fuel →
  let B := Mongo.bulkWrite (map bulkOp (drop (Z.to_nat start) (ledger ch))) (messages st) in
  ∃ st', sync_batches fuel ch (Z.of_nat (length (ledger ch))) start acc st
         = Some (inr (count_batch acc (snd B)), st')
         ∧ messages st' = fst B
         ∧ fault st' = fault st
         ∧ MONGODB_URI st' = MONGODB_URI st.
Proof.
  set (N := Z.of_nat (length (ledger ch))).
  assert (∀ fuel' start acc st, N <= start → 0 <= start →
            (let B := Mongo.bulkWrite (map bulkOp (drop (Z.to_nat start) (ledger ch)))
                                      (messages st) in
             sync_batches fuel' ch N start acc st = Some (inr (count_batch acc (snd B)), st)
             ∧ messages st = fst B)) as Hdone.
  { intros fuel' start acc st Hge H0.
    rewrite drop_ge by (subst N; lia). cbn [map Mongo.bulkWrite fst snd].
    rewrite count_batch_no_result. split; [|done].
    assert ((start <? N) = false) as Hlt by (apply Z.ltb_ge; lia).
    destruct fuel'; cbn [sync_batches]; by rewrite Hlt. }
  induction fuel as [|fuel IH]; intros start acc st Hrpc Hf H0 Hfuel B.
  - destruct (Hdone 0%nat start acc st) as [-> Hm]; [lia|done|]. by exists st.
  - destruct (Z.le_gt_cases N start) as [Hge|Hlt].
    { destruct (Hdone (S fuel) start acc st) as [-> Hm]; [done|done|]. by exists st. }
    cbn [sync_batches].
    assert ((start <? N) = true) as -> by (by apply Z.ltb_lt). cbn [negb].
    unfold getMessages. rewrite Hrpc.
    set (X := drop (Z.to_nat start) (ledger ch)).
    assert (length X = Z.to_nat (N - start)) as HX
      by (subst X N; rewrite length_drop; lia).
    assert (Z.min BATCH_SIZE (N - start) = Z.min BATCH_SIZE (Z.of_nat (length X))) as ->
      by (rewrite HX; f_equal; lia).
    set (msgs := take (Z.to_nat (Z.min BATCH_SIZE (Z.of_nat (length X)))) X).
    assert (0 < length (map bulkOp msgs))%nat as Hne.
    { subst msgs. rewrite length_map, length_take. unfold BATCH_SIZE. lia. }
    apply Nat.ltb_lt in Hne. rewrite Hne.
    rewrite bulkWrite_ok by apply Hf.
    set (B1 := Mongo.bulkWrite (map bulkOp msgs) (messages st)).
    set (st1 := set_messages (fst B1) (log (BulkWrite (map bulkOp msgs)) st)).
    set (B2 := Mongo.bulkWrite
                 (map bulkOp (drop (Z.to_nat (start + BATCH_SIZE)) (ledger ch))) (fst B1)).
    assert (B = (fst B2, add_result (snd B1) (snd B2))) as HB.
    { subst B. fold X. rewrite <- (batch_split X) at 1. fold msgs.
      rewrite map_app, bulkWrite_app. fold B1. subst B2 X.
      unfold BATCH_SIZE. by rewrite drop_drop, Z2Nat.inj_add by lia. }
    destruct (IH (start + BATCH_SIZE) (count_batch acc (snd B1)) st1)
      as (st' & -> & Hm & Hfa & Hu); [done|apply Hf|unfold BATCH_SIZE; lia
                                     |unfold BATCH_SIZE; fold N; lia|].
    exists st'. rewrite HB. cbn [fst snd].
    by rewrite count_batch_add.
Qed.

(** The loop always finishes within the fuel [syncMessages] gives it. *)
Lemma sync_batches_total ch fuel : ∀ messageCount start acc st,
  messageCount - start <= Z.of_nat fuel →
  is_Some (sync_batches fuel ch messageCount start acc st).
Proof.
  induction fuel as [|fuel IH]; intros messageCount start acc st Hfuel.
  - cbn [sync_batches].
    assert ((start <? messageCount) = false) as -> by (apply Z.ltb_ge; lia). done.
  - cbn [sync_batches].
    destruct (start <? messageCount); [|done]. cbn [negb].
    destruct (getMessages ch start _) as [msgs|]; [|done].
    assert (messageCount - (start + BATCH_SIZE) <= Z.of_nat fuel) as Hnext
      by (unfold BATCH_SIZE; lia).
    destruct (0 <? length (map bulkOp msgs))%nat; [|by apply IH].
    destruct (bulkWrite (map bulkOp msgs) st) as [[e|r] st1]; [done|by apply IH].
Qed.

Lemma syncMessages_total ch st : is_Some (syncMessages ch st).
Proof.
  unfold syncMessages.
  destruct (getTotalMessageCount ch) as [n|]; [|done].
  destruct (Number_of_bigint n =? 0); [done|].
  destruct (connect st) as [[e|u] st1]; [done|].
  destruct (query CountAll _ st1) as [[e|k] st2]; [done|].
  destruct (sync_batches_total ch (Z.to_nat (Number_of_bigint n)) (Number_of_bigint n) 0
              {| syncedCount := 0; updatedCount := 0; skippedCount := 0 |} st2)
    as [[[e|acc] st3] ->]; [lia|done|].
  by destruct (query (Distinct "sender") distinct_senders st3) as [[e|l] st4].
Qed.

Lemma healthy_connects st : healthy st → connection_fails st = false.
Proof.
  intros [Hu Hf]. unfold connection_fails. rewrite Hu, Hf. cbn [negb orb].
  rewrite bool_decide_eq_false_2; [by destruct (cached st)|]. by intros [? ?].
Qed.

(** A complete run on a healthy chain and store. *)
Lemma syncMessages_healthy ch st :
  chain_up ch → healthy st → ledger ch ≠ [] →
  let B := Mongo.bulkWrite (map bulkOp (ledger ch)) (messages st) in
  ∃ st', syncMessages ch st
         = Some (Completed {| total := Z.of_nat (length (ledger ch));
                              inserted := upsertedCount (snd B);
                              updated := modifiedCount (snd B);
                              unchanged := matchedCount (snd B) - modifiedCount (snd B);
                              uniqueSenders := length (distinct_senders (fst B)) |}, st')
         ∧ messages st' = fst B
         ∧ healthy st'.
Proof.
  intros [Hrpc Hlen] [Hu Hf] Hne B.
  unfold syncMessages, getTotalMessageCount. rewrite Hrpc.
  rewrite Number_of_bigint_small by lia. rewrite nat_N_Z.
  assert ((Z.of_nat (length (ledger ch)) =? 0) = false) as ->.
  { apply Z.eqb_neq. destruct (ledger ch); [done|]. simpl. lia. }
  unfold connect. rewrite Hu. cbn [negb].
  rewrite perform_ok by apply Hf. cbn [fst snd].
  set (st1 := set_messages (messages st) (log Connect st)).
  rewrite (query_ok CountAll) by apply Hf.
  set (st2 := log CountAll st1).
  destruct (sync_batches_healthy ch (Z.to_nat (Z.of_nat (length (ledger ch)))) 0
              {| syncedCount := 0; updatedCount := 0; skippedCount := 0 |} st2)
    as (st3 & -> & Hm & Hfa & Hu3); [done|apply Hf|done|lia|].
  change (Z.to_nat 0) with 0%nat in Hm |- *. rewrite drop_0 in Hm |- *.
  change (messages st2) with (messages st) in Hm |- *. fold B in Hm |- *.
  rewrite (query_ok (Distinct "sender")) by (rewrite Hfa; apply Hf).
  exists (log (Distinct "sender") st3). split; [|split; [exact Hm|]].
  - unfold count_batch. cbn [syncedCount updatedCount skippedCount].
    rewrite Hm, !Z.add_0_l. reflexivity.
  - split; [by rewrite <- Hu|]. intros c. cbn [fault log]. rewrite Hfa. apply Hf.
Qed.

Lemma syncMessages_empty ch st :
  chain_up ch → ledger ch = [] → syncMessages ch st = Some (NothingToSync, st).
Proof.
  intros [Hrpc _] He. unfold syncMessages, getTotalMessageCount.
  by rewrite Hrpc, He.
Qed.





End Reconciler.

(* ===================================================================== *)
(** ** Circuit breaker: the table over time, [safeFetchJSON]              *)
(* ===================================================================== *)

Section BreakerTable.
Import SafeFetch Props.
Implicit Types (url u : string) (cbs : Breakers) (b : CircuitBreakerState).

Lemma getCircuitBreaker_other url u cbs :
  u ≠ url → snd (getCircuitBreaker url cbs) !! u = cbs !! u.
Proof.
  intros H. unfold getCircuitBreaker. destruct (cbs !! url); [done|].
  simpl. by rewrite lookup_insert_ne.
Qed.

Lemma recordFailure_other url u now cbs :
  u ≠ url → recordFailure url now cbs !! u = cbs !! u.
Proof.
  intros H. unfold recordFailure.
  pose proof (getCircuitBreaker_other url u cbs H) as Hg.
  destruct (getCircuitBreaker url cbs) as [b c]. simpl in Hg.
  by rewrite lookup_insert_ne.
Qed.

Lemma recordSuccess_other url u cbs :
  u ≠ url → recordSuccess url cbs !! u = cbs !! u.
Proof.
  intros H. unfold recordSuccess.
  pose proof (getCircuitBreaker_other url u cbs H) as Hg.
  destruct (getCircuitBreaker url cbs) as [b c]. simpl in Hg.
  by rewrite lookup_insert_ne.
Qed.

Lemma shouldAllowRequest_other url u now cbs :
  u ≠ url → snd (shouldAllowRequest url now cbs) !! u = cbs !! u.
Proof.
  intros H. unfold shouldAllowRequest.
  pose proof (getCircuitBreaker_other url u cbs H) as Hg.
  destruct (getCircuitBreaker url cbs) as [b c]. simpl in Hg.
  destruct (negb (isOpen b)); [done|].
  destruct (_ <? _); [|done].
  simpl. by rewrite lookup_insert_ne.
Qed.

Lemma safeFetch_other url u t0 net t1 cbs :
  u ≠ url → breakers (safeFetch url t0 net t1 cbs) !! u = cbs !! u.
Proof.
  intros H. unfold safeFetch.
  pose proof (shouldAllowRequest_other url u t0 cbs H) as Hs.
  destruct (shouldAllowRequest url t0 cbs) as [[] c]; simpl in *; [|done].
  destruct net as [status|e]; simpl.
  - destruct (ok status); [by rewrite recordSuccess_other|].
    destruct (500 <=? status); [by rewrite recordFailure_other|done].
  - destruct (_ || _); [by rewrite recordFailure_other|done].
Qed.

Lemma breaker_of_other u cbs cbs' :
  cbs' !! u = cbs !! u → breaker_of u cbs' = breaker_of u cbs.
Proof. unfold breaker_of. by intros ->. Qed.

(** The entry of the URL after [shouldAllowRequest]. *)
Lemma shouldAllowRequest_at url now cbs :
  let b := breaker_of url cbs in
  breaker_of url (snd (shouldAllowRequest url now cbs))
  = if isOpen b && (CIRCUIT_BREAKER_TIMEOUT <? now - lastFailureTime b)
    then {| failures := 0; lastFailureTime := lastFailureTime b; isOpen := false |}
    else b.
Proof.
  cbv zeta. destruct (isOpen (breaker_of url cbs)) eqn:Ho; cbn [andb].
  - destruct (Z.ltb_spec CIRCUIT_BREAKER_TIMEOUT
                (now - lastFailureTime (breaker_of url cbs))) as [Ht|Ht].
    + by destruct (shouldAllowRequest_cooled url now cbs Ho Ht) as [_ ->].
    + by rewrite (shouldAllowRequest_blocked url now cbs Ho Ht).
  - by destruct (shouldAllowRequest_closed url now cbs Ho) as [_ ->].
Qed.

Lemma consistent_fresh : consistent fresh.
Proof. split; [done|]. cbn. unfold CIRCUIT_BREAKER_THRESHOLD. split; [done|lia]. Qed.

Lemma consistent_reset b :
  consistent {| failures := 0; lastFailureTime := lastFailureTime b; isOpen := false |}.
Proof. split; [done|]. cbn. unfold CIRCUIT_BREAKER_THRESHOLD. split; [done|lia]. Qed.

Lemma consistent_reachable cbs : reachable cbs → ∀ u, consistent (breaker_of u cbs).
Proof.
  induction 1 as [|cbs _ _|url now cbs _ IH|url cbs _ IH|url now cbs _ IH]; intros u.
  - apply consistent_fresh.
  - apply consistent_fresh.
  - destruct (decide (u = url)) as [->|Hne].
    + rewrite shouldAllowRequest_at.
      destruct (_ && _); [apply consistent_reset | apply IH].
    + rewrite (breaker_of_other u cbs) by (by apply shouldAllowRequest_other). apply IH.
  - destruct (decide (u = url)) as [->|Hne].
    + rewrite recordSuccess_at. apply consistent_reset.
    + rewrite (breaker_of_other u cbs) by (by apply recordSuccess_other). apply IH.
  - destruct (decide (u = url)) as [->|Hne].
    + rewrite recordFailure_at. destruct (IH url) as [Hf Ho].
      unfold consistent, CIRCUIT_BREAKER_THRESHOLD in *. cbn [failures isOpen].
      split; [lia|].
      destruct (Z.leb_spec 3 (failures (breaker_of url cbs) + 1)); [done|].
      rewrite Ho. lia.
    + rewrite (breaker_of_other u cbs) by (by apply recordFailure_other). apply IH.
Qed.

Lemma safeFetch_reachable url t0 net t1 cbs :
  reachable cbs → reachable (breakers (safeFetch url t0 net t1 cbs)).
Proof.
  intros H. unfold safeFetch.
  pose proof (reachable_allow url t0 cbs H) as Ha.
  destruct (shouldAllowRequest url t0 cbs) as [[] c]; simpl in *; [|done].
  destruct net as [status|e]; simpl.
  - destruct (ok status); [by constructor|].
    destruct (500 <=? status); [by constructor|done].
  - destruct (_ || _); [by constructor|done].
Qed.

(** A call on a closed breaker that ends in a 2xx response. *)
Lemma safeFetch_succeeding url t0 net t1 cbs :
  isOpen (breaker_of url cbs) = false →
  is_success net = true →
  breaker_of url (breakers (safeFetch url t0 net t1 cbs))
  = {| failures := 0; lastFailureTime := lastFailureTime (breaker_of url cbs);
       isOpen := false |}.
Proof.
  intros Hc Hnet.
  destruct (shouldAllowRequest_closed url t0 cbs Hc) as [Ha Hb].
  destruct (safeFetch_allowed url t0 net t1 cbs Ha) as [_ ->].
  destruct net as [status|e]; [|done].
  cbn [is_success] in Hnet. rewrite Hnet.
  by rewrite recordSuccess_at, Hb.
Qed.

(** A call on a closed breaker that ends neither in a 2xx response nor in
    a recorded failure. *)
Lemma safeFetch_neutral url t0 net t1 cbs :
  isOpen (breaker_of url cbs) = false →
  is_success net = false →
  counts_as_failure net = false →
  breaker_of url (breakers (safeFetch url t0 net t1 cbs)) = breaker_of url cbs.
Proof.
  intros Hc Hs Hnet.
  destruct (shouldAllowRequest_closed url t0 cbs Hc) as [Ha Hb].
  destruct (safeFetch_allowed url t0 net t1 cbs Ha) as [_ ->].
  rewrite Hnet.
  destruct net as [status|e]; [|done].
  cbn [is_success] in Hs. by rewrite Hs.
Qed.

Lemma recorded_cons call calls :
  recorded (call :: calls)
  = ((if counts_as_failure (snd (fst call)) then 1 else 0) + recorded calls)%nat.
Proof.
  unfold recorded. rewrite filter_cons.
  destruct (decide _) as [H|H].
  - by rewrite H.
  - apply not_true_is_false in H. by rewrite H.
Qed.

(** A run without a 2xx response, as long as the threshold is not
    reached. *)
Lemma fetch_all_counts url calls : ∀ cbs,
  isOpen (breaker_of url cbs) = false →
  Forall (fun call => is_success (snd (fst call)) = false) calls →
  failures (breaker_of url cbs) + Z.of_nat (recorded calls) < CIRCUIT_BREAKER_THRESHOLD →
  let b' := breaker_of url (fetch_all url calls cbs) in
  failures b' = failures (breaker_of url cbs) + Z.of_nat (recorded calls)
  ∧ isOpen b' = false.
Proof.
  unfold CIRCUIT_BREAKER_THRESHOLD.
  induction calls as [|[[t0 net] t1] calls IH]; intros cbs Hc Hall Hlen.
  - cbn. split; [lia|done].
  - apply Forall_cons in Hall as [Hnet Hall]. cbn [fst snd] in Hnet.
    cbn [fetch_all foldl fst snd].
    fold (fetch_all url calls (breakers (safeFetch url t0 net t1 cbs))).
    rewrite recorded_cons in Hlen |- *. cbn [fst snd] in Hlen |- *.
    destruct (counts_as_failure net) eqn:Hf.
    + pose proof (safeFetch_failing url t0 net t1 cbs Hc Hf) as Hstep.
      destruct (IH (breakers (safeFetch url t0 net t1 cbs))) as [H1 H2]; [| done | |].
      * rewrite Hstep. cbn [isOpen]. apply Z.leb_gt.
        unfold CIRCUIT_BREAKER_THRESHOLD. lia.
      * rewrite Hstep. cbn [failures]. lia.
      * cbv zeta in H1, H2. rewrite H1, H2, Hstep. cbn [failures]. split; [lia|done].
    + cbn [Nat.add] in Hlen |- *.
      pose proof (safeFetch_neutral url t0 net t1 cbs Hc Hnet Hf) as Hstep.
      destruct (IH (breakers (safeFetch url t0 net t1 cbs))) as [H1 H2]; [| done | |].
      * by rewrite Hstep.
      * by rewrite Hstep.
      * cbv zeta in H1, H2. by rewrite H1, H2, Hstep.
Qed.

(** X1.  Whatever calls of [safeFetch] and [resetCircuitBreakers] have been
    made since the module was loaded, and however the calls in flight
    interleave, a call of [safeFetch] leaves a table of that kind again,
    and in such a table the breaker of every URL is open exactly when at
    least three failures are on record for it; the failure count is never
    negative. *)
Theorem breaker_open_iff_three_failures cbs url t0 net t1 u :
  reachable cbs →
  reachable (breakers (safeFetch url t0 net t1 cbs))
  ∧ 0 <= failures (breaker_of u cbs)
  ∧ (isOpen (breaker_of u cbs) = true
     ↔ CIRCUIT_BREAKER_THRESHOLD <= failures (breaker_of u cbs)).
Proof.
  intros H. split; [by apply safeFetch_reachable|].
  apply (consistent_reachable cbs H u).
Qed.

Lemma breaker_open_iff_three_failures_witness :
  let cbs := recordFailure Samples.url 20 ∅ in
  reachable (breakers (safeFetch Samples.url 30 (Responds 503) 40 cbs))
  ∧ 0 <= failures (breaker_of Samples.url cbs)
  ∧ (isOpen (breaker_of Samples.url cbs) = true
     ↔ CIRCUIT_BREAKER_THRESHOLD <= failures (breaker_of Samples.url cbs)).
Proof.
  intros cbs.
  apply (breaker_open_iff_three_failures cbs Samples.url 30 (Responds 503) 40 Samples.url).
  apply reachable_failure, reachable_loaded.
Defined.

(** X2.  A call of [safeFetch] for one URL leaves the entry of every other
    URL as it was: failures of one destination never open, close or
    reset the breaker of another. *)
Theorem breakers_are_kept_per_url url u t0 net t1 cbs :
  u ≠ url →
  breakers (safeFetch url t0 net t1 cbs) !! u = cbs !! u
  ∧ fst (shouldAllowRequest u t1 (breakers (safeFetch url t0 net t1 cbs)))
    = fst (shouldAllowRequest u t1 cbs).
Proof.
  intros H. pose proof (safeFetch_other url u t0 net t1 cbs H) as Hs.
  split; [done|].
  unfold shouldAllowRequest, getCircuitBreaker. rewrite Hs.
  destruct (cbs !! u) as [b|]; [|done].
  destruct (negb (isOpen b)); [done|]. by destruct (_ <? _).
Qed.

Lemma breakers_are_kept_per_url_witness :
  let o := safeFetch "/api/users" 61000 (Responds 200) 61001 Samples.open_breaker in
  breakers o !! Samples.url = Samples.open_breaker !! Samples.url
  ∧ fst (shouldAllowRequest Samples.url 61001 (breakers o))
    = fst (shouldAllowRequest Samples.url 61001 Samples.open_breaker).
Proof.
  intros o.
  assert (H : Samples.url ≠ "/api/users") by discriminate.
  exact (breakers_are_kept_per_url "/api/users" Samples.url 61000 (Responds 200) 61001
           Samples.open_breaker H).
Defined.

(** X3.  [safeFetchJSON] gives a value exactly when the breaker lets the
    request through, the response has a 2xx status and its body can be
    read as JSON, and the value is then the one read; in every other
    case (breaker open, rejected or timed-out request, any other status,
    unreadable body) it gives [null]. *)
Theorem safeFetchJSON_value {T} url t0 net (parsed : option T) t1 cbs v :
  fst (safeFetchJSON url t0 net parsed t1 cbs) = Some v
  ↔ fst (shouldAllowRequest url t0 cbs) = true
    ∧ (∃ status, net = Responds status ∧ ok status = true)
    ∧ parsed = Some v.
Proof.
  unfold safeFetchJSON, safeFetch.
  destruct (shouldAllowRequest url t0 cbs) as [[] c]; cbn [fst negb completion].
  - destruct net as [status|e]; cbn [completion].
    + destruct (ok status) eqn:Hok; cbn [negb].
      * split; [by eauto 10|]. by intros (_ & _ & ->).
      * split; [done|]. intros (_ & (s & [= <-] & Hs) & _). congruence.
    + split; [done|]. by intros (_ & (s & [=] & _) & _).
  - split; [done|]. by intros ([=] & _).
Qed.

(** X22.  Only failures in a row open the breaker.  On a closed breaker,
    take a run of calls none of which ends in a 2xx response and fewer
    than three of which end in a recorded failure (a 5xx response, an
    error named [AbortError] or [TypeError]).  Made after a call that
    ended in a 2xx response, the run leaves the breaker closed with
    exactly its recorded failures on the count, whatever the count was
    before that response.
    Made without that call, it leaves the count at the earlier count plus
    its recorded failures, and the breaker closed as long as this stays
    below three: the other outcomes (3xx and 4xx responses, other
    errors) neither count nor reset the count. *)
Theorem failure_count_restarts_at_success url cbs t0 net t1 calls :
  isOpen (breaker_of url cbs) = false →
  is_success net = true →
  Forall (fun call => is_success (snd (fst call)) = false) calls →
  Z.of_nat (recorded calls) < CIRCUIT_BREAKER_THRESHOLD →
  (let b' := breaker_of url (fetch_all url ((t0, net, t1) :: calls) cbs) in
   failures b' = Z.of_nat (recorded calls) ∧ isOpen b' = false)
  ∧ (failures (breaker_of url cbs) + Z.of_nat (recorded calls) < CIRCUIT_BREAKER_THRESHOLD →
     let b' := breaker_of url (fetch_all url calls cbs) in
     failures b' = failures (breaker_of url cbs) + Z.of_nat (recorded calls)
     ∧ isOpen b' = false).
Proof.
  intros Hc Hnet Hall Hlen. split.
  - cbn [fetch_all foldl fst snd].
    fold (fetch_all url calls (breakers (safeFetch url t0 net t1 cbs))).
    pose proof (safeFetch_succeeding url t0 net t1 cbs Hc Hnet) as Hstep.
    destruct (fetch_all_counts url calls (breakers (safeFetch url t0 net t1 cbs)))
      as [H1 H2]; [| done | |].
    + by rewrite Hstep.
    + by rewrite Hstep.
    + cbv zeta in H1, H2 |- *. rewrite H1, H2, Hstep. cbn [failures]. split; [lia|done].
  - intros Hsum. by apply fetch_all_counts.
Qed.

Lemma failure_count_restarts_at_success_witness :
  let cbs := fetch_all Samples.url [(0, Responds 503, 1); (2, Responds 500, 3)] ∅ in
  let calls := [(6, Responds 502, 7); (8, Responds 404, 9); (10, Responds 500, 11)] in
  failures (breaker_of Samples.url cbs) = 2
  ∧ failures (breaker_of Samples.url
                (fetch_all Samples.url ((4, Responds 200, 5) :: calls) cbs)) = 2
  ∧ isOpen (breaker_of Samples.url
              (fetch_all Samples.url ((4, Responds 200, 5) :: calls) cbs)) = false.
Proof.
  intros cbs calls.
  assert (H1 : isOpen (breaker_of Samples.url cbs) = false) by reflexivity.
  assert (H2 : is_success (Responds 200) = true) by reflexivity.
  assert (H3 : Forall (fun call => is_success (snd (fst call)) = false) calls)
    by (repeat constructor).
  assert (H4 : Z.of_nat (recorded calls) < CIRCUIT_BREAKER_THRESHOLD) by reflexivity.
  destruct (failure_count_restarts_at_success Samples.url cbs 4 (Responds 200) 5 calls
              H1 H2 H3 H4) as [[Ha Hb] _].
  split; [reflexivity|]. split; [exact Ha | exact Hb].
Defined.

End BreakerTable.

(* ===================================================================== *)
(** ** Numbers in a query string: written by the client, read by [GET]    *)
(* ===================================================================== *)

Section Decimal.
Import JS Props MessagesApi.

Lemma digit_cases d : 0 <= d < 10 →
  d = 0 ∨ d = 1 ∨ d = 2 ∨ d = 3 ∨ d = 4 ∨ d = 5 ∨ d = 6 ∨ d = 7 ∨ d = 8 ∨ d = 9.
Proof. lia. Qed.

Lemma digit_value_digit_char d :
  0 <= d < 10 → digit_value 10 (digit_char d) = Some d.
Proof.
  intros H. destruct (digit_cases d H) as [->|[->|[->|[->|[->|[->|[->|[->|[->| ->]]]]]]]]];
    reflexivity.
Qed.

Lemma is_digit_digit_char d : 0 <= d < 10 → is_digit (digit_char d) = true.
Proof.
  intros H. destruct (digit_cases d H) as [->|[->|[->|[->|[->|[->|[->|[->|[->| ->]]]]]]]]];
    reflexivity.
Qed.

Lemma digits_step fuel n acc :
  digits (S fuel) n acc
  = if n <? 10 then String (digit_char (n mod 10)) acc
    else digits fuel (n / 10) (String (digit_char (n mod 10)) acc).
Proof. done. Qed.

(** Reading the digits [digits] wrote gives the number back. *)
Lemma scan_digits_digits fuel : ∀ n acc,
  0 <= n < 10 ^ Z.of_nat (S fuel) →
  scan_digits 10 (digits (S fuel) n acc) None = scan_digits 10 acc (Some n).
Proof.
  induction fuel as [|fuel IH]; intros n acc Hn; rewrite digits_step.
  - change (10 ^ Z.of_nat 1) with 10 in Hn.
    assert (n mod 10 = n) as -> by (apply Z.mod_small; lia).
    assert (scan_digits 10 (String (digit_char n) acc) None = scan_digits 10 acc (Some n))
      as Hs.
    { cbn [scan_digits]. rewrite digit_value_digit_char by lia. cbn [default].
      repeat f_equal; try lia. }
    by destruct (n <? 10).
  - destruct (Z.ltb_spec n 10) as [Hlt|Hge].
    + rewrite Z.mod_small by lia. cbn [scan_digits].
      rewrite digit_value_digit_char by lia. cbn [default]; unfold id. repeat f_equal; try lia.
    + pose proof (Z.mod_pos_bound n 10 ltac:(lia)) as Hm.
      pose proof (Z.div_mod n 10 ltac:(lia)) as Hd.
      rewrite IH.
      * cbn [scan_digits]. rewrite digit_value_digit_char by lia.
        cbn [default]; unfold id. repeat f_equal; try lia.
      * split; [apply Z.div_pos; lia|].
        apply Z.div_lt_upper_bound; [lia|].
        rewrite (Nat2Z.inj_succ (S fuel)), Z.pow_succ_r in Hn by lia. lia.
Qed.

Lemma digits_all_digits fuel : ∀ n acc,
  0 <= n → all_chars is_digit acc = true → all_chars is_digit (digits fuel n acc) = true.
Proof.
  induction fuel as [|fuel IH]; intros n acc Hn Hacc; [done|].
  rewrite digits_step.
  pose proof (Z.mod_pos_bound n 10 ltac:(lia)) as Hm.
  assert (all_chars is_digit (String (digit_char (n mod 10)) acc) = true) as Hs.
  { cbn [all_chars]. by rewrite is_digit_digit_char, Hacc. }
  destruct (n <? 10); [done|].
  apply IH; [apply Z.div_pos; lia|done].
Qed.

Lemma digits_nonempty fuel : ∀ n acc, digits (S fuel) n acc ≠ "".
Proof.
  induction fuel as [|fuel IH]; intros n acc; rewrite digits_step.
  - by destruct (n <? 10).
  - destruct (n <? 10); [done|]. apply IH.
Qed.

(** On a numeral made of decimal digits [parseInt] skips nothing, finds
    no sign and no [0x], and reads every digit. *)
Lemma parseInt_decimal s :
  is_decimal s = true →
  parseInt s = match scan_digits 10 s None with Some m => of_Z m | None => NaN end.
Proof.
  unfold is_decimal. intros H. apply andb_true_iff in H as [Hne Hd].
  destruct s as [|c r]; [done|]. clear Hne.
  cbn [all_chars] in Hd. apply andb_true_iff in Hd as [Hc Hr].
  unfold parseInt.
  assert (trimStart (String c r) = String c r) as ->.
  { destruct c as [[] [] [] [] [] [] [] []]; try done; by vm_compute in Hc. }
  assert (strip_sign (String c r) = (1, String c r)) as ->.
  { destruct c as [[] [] [] [] [] [] [] []]; try done; by vm_compute in Hc. }
  assert (strip_hex_prefix (String c r) = (10, String c r)) as ->.
  { destruct c as [[] [] [] [] [] [] [] []]; try done; try (by vm_compute in Hc).
    destruct r as [|c2 r2]; [done|].
    cbn [all_chars] in Hr. apply andb_true_iff in Hr as [Hc2 _].
    destruct c2 as [[] [] [] [] [] [] [] []]; try done; by vm_compute in Hc2. }
  destruct (scan_digits 10 (String c r) None) as [m|]; [|done].
  by rewrite Z.mul_1_l.
Qed.

Lemma fuel_suffices n : 0 <= n → n < 10 ^ Z.of_nat (S (Z.to_nat (Z.log2 n))).
Proof.
  intros Hn. rewrite Nat2Z.inj_succ, Z2Nat.id by apply Z.log2_nonneg.
  destruct (decide (n = 0)) as [->|Hne]; [done|].
  pose proof (Z.log2_spec n ltac:(lia)) as [_ Hlt].
  eapply Z.lt_le_trans; [exact Hlt|].
  apply Z.pow_le_mono_l. pose proof (Z.log2_nonneg n). lia.
Qed.

Lemma Number_toString_nonneg n :
  0 <= n →
  is_decimal (Number_toString n) = true
  ∧ scan_digits 10 (Number_toString n) None = Some n.
Proof.
  intros Hn. unfold Number_toString.
  destruct (Z.ltb_spec n 0); [lia|]. split.
  - unfold is_decimal. rewrite digits_all_digits by done.
    rewrite bool_decide_eq_false_2 by apply digits_nonempty. done.
  - by rewrite scan_digits_digits by (split; [done|by apply fuel_suffices]).
Qed.

Lemma parseInt_Number_toString n : parseInt (Number_toString n) = of_Z n.
Proof.
  destruct (Z.ltb_spec n 0) as [Hneg|Hpos].
  - unfold Number_toString. destruct (Z.ltb_spec n 0); [|lia].
    set (s := digits _ (- n) "").
    assert (is_decimal s = true ∧ scan_digits 10 s None = Some (- n)) as [Hd Hs].
    { pose proof (Number_toString_nonneg (- n) ltac:(lia)) as Hp.
      unfold Number_toString in Hp. by destruct (Z.ltb_spec (- n) 0); [lia|]. }
    pose proof (parseInt_decimal s Hd) as Hp. rewrite Hs in Hp.
    unfold parseInt in Hp |- *.
    change (trimStart (String "-" s)) with (String "-" s).
    change (strip_sign (String "-" s)) with (-1, s).
    unfold is_decimal in Hd. apply andb_true_iff in Hd as [Hne Hd].
    destruct s as [|c r]; [done|].
    cbn [all_chars] in Hd. apply andb_true_iff in Hd as [Hc Hr].
    assert (strip_hex_prefix (String c r) = (10, String c r)) as ->.
    { destruct c as [[] [] [] [] [] [] [] []]; try done; try (by vm_compute in Hc).
      destruct r as [|c2 r2]; [done|].
      cbn [all_chars] in Hr. apply andb_true_iff in Hr as [Hc2 _].
      destruct c2 as [[] [] [] [] [] [] [] []]; try done; by vm_compute in Hc2. }
    rewrite Hs. f_equal. lia.
  - destruct (Number_toString_nonneg n Hpos) as [Hd Hs].
    by rewrite parseInt_decimal, Hs.
Qed.

Lemma Number_toString_not_empty n : Number_toString n ≠ "".
Proof.
  unfold Number_toString. destruct (n <? 0); [done|]. apply digits_nonempty.
Qed.

(** X4.  A safe integer written into a query string, as the API client
    writes [page] and [limit], is read back by [parseInt], and so by
    [GET /api/messages], as the same number; it is written with decimal
    digits only when it is not negative. *)
Theorem query_number_round_trip a (p l : Z) :
  safe_integer p → safe_integer l →
  parseInt (Number_toString p) = of_Z p
  ∧ page_of (list_query a p l) = of_Z p
  ∧ limit_of (list_query a p l) = of_Z l
  ∧ (0 <= p → is_decimal (Number_toString p) = true).
Proof.
  intros _ _.
  split; [apply parseInt_Number_toString|].
  split; [|split].
  - unfold page_of. cbn [list_query MessagesRoute.q_page].
    rewrite or_default_given by apply Number_toString_not_empty.
    apply parseInt_Number_toString.
  - unfold limit_of. cbn [list_query MessagesRoute.q_limit].
    rewrite or_default_given by apply Number_toString_not_empty.
    apply parseInt_Number_toString.
  - intros Hn. by destruct (Number_toString_nonneg p Hn).
Qed.

Lemma query_number_round_trip_witness :
  parseInt (Number_toString 120) = of_Z 120
  ∧ page_of (list_query Samples.address 120 50) = of_Z 120
  ∧ limit_of (list_query Samples.address 120 50) = of_Z 50
  ∧ is_decimal (Number_toString 120) = true.
Proof.
  assert (S1 : safe_integer 120) by (split; reflexivity).
  assert (S2 : safe_integer 50) by (split; reflexivity).
  destruct (query_number_round_trip Samples.address 120 50 S1 S2) as (H1 & H2 & H3 & H4).
  split; [exact H1|]. split; [exact H2|]. split; [exact H3|]. apply H4. lia.
Defined.

End Decimal.

(* ===================================================================== *)
(** ** The store under the handlers: what is read, what is written        *)
(* ===================================================================== *)

Section StoreOverTime.
Import JS Mongo Storage Http Props.
Implicit Types (st : Store) (c : Call).

Lemma reads_refl st : reads st st.
Proof. repeat split. by exists []. Qed.


Lemma reads_log c st : is_read c = true → reads st (log c st).
Proof. intros H. repeat split. exists [c]. split; [done|]. by constructor. Qed.

Lemma reads_getMongoDb st : reads st (snd (getMongoDb st)).
Proof.
  unfold getMongoDb.
  destruct (negb (MONGODB_URI st)); [apply reads_refl|].
  destruct (cached st); [apply reads_refl|].
  cbn [fault log].
  destruct (fault st Connect); cbn [snd]; [by apply reads_log|].
  repeat split. exists [Connect]. split; [done|]. by constructor.
Qed.





End StoreOverTime.

(* ===================================================================== *)
(** ** The connection cache, the write path under faults                  *)
(* ===================================================================== *)

Section WritePath.
Import JS Mongo Storage Http Props.
Import MessagesRoute.
Implicit Types (st : Store) (c : Call).

(** X6.  [getMongoDb] connects at most once: after a call that did not
    throw the connection is cached, and the calls that follow return it
    without a storage call, even when the server can no longer be
    reached.  A connection that failed is not cached: the next call
    connects again, and succeeds when the server is back. *)
Theorem connection_is_cached_on_success_only st st' f :
  (connection_fails st = false →
   cached (connected st) = true
   ∧ getMongoDb (with_fault f (connected st)) = (inr tt, with_fault f (connected st)))
  ∧ (MONGODB_URI st' = true → connection_fails st' = true →
     cached (connected st') = false
     ∧ calls (connected st') = Connect :: calls st'
     ∧ (f Connect = None →
        ∃ st2, getMongoDb (with_fault f (connected st')) = (inr tt, st2)
               ∧ calls st2 = Connect :: Connect :: calls st'
               ∧ cached st2 = true)).
Proof.
  split.
  - unfold connection_fails, connected, getMongoDb. intros H.
    destruct (MONGODB_URI st) eqn:EU; cbn [negb orb] in H; [|done].
    destruct (cached st) eqn:EC; cbn [negb andb] in H |- *.
    + cbn [snd with_fault MONGODB_URI cached]. by rewrite EU, EC.
    + apply bool_decide_eq_false in H. cbn [fault log].
      destruct (fault st Connect) eqn:E; [by destruct H; eauto|].
      cbn [snd set_cached log cached with_fault MONGODB_URI]. by rewrite EU.
  - unfold connection_fails, connected, getMongoDb. intros EU H.
    rewrite EU in H |- *. cbn [negb orb] in H |- *.
    destruct (cached st') eqn:EC; cbn [negb andb] in H; [done|].
    apply bool_decide_eq_true in H as [e He]. cbn [fault log]. rewrite He.
    cbn [snd log cached calls]. split; [done|]. split; [done|].
    intros Hf. eexists. cbn [with_fault MONGODB_URI cached fault log]. rewrite EU, EC.
    cbn [negb]. rewrite Hf. split; [reflexivity|]. done.
Qed.

Lemma connection_is_cached_on_success_only_witness :
  let st := Samples.empty_store in
  let st' := Samples.unreachable_store in
  let f := fault Samples.unreachable_store in
  let back := fault Samples.empty_store in
  (cached (connected st) = true
   ∧ getMongoDb (with_fault f (connected st)) = (inr tt, with_fault f (connected st)))
  ∧ cached (connected st') = false
  ∧ calls (connected st') = Connect :: calls st'
  ∧ ∃ st2, getMongoDb (with_fault back (connected st')) = (inr tt, st2)
           ∧ calls st2 = Connect :: Connect :: calls st'
           ∧ cached st2 = true.
Proof.
  intros st st' f back.
  assert (H1 : connection_fails st = false) by reflexivity.
  assert (H2 : MONGODB_URI st' = true) by reflexivity.
  assert (H3 : connection_fails st' = true) by reflexivity.
  assert (H4 : back Connect = None) by reflexivity.
  split.
  - exact (proj1 (connection_is_cached_on_success_only st st' f) H1).
  - destruct (proj2 (connection_is_cached_on_success_only st st' back) H2 H3)
      as (Ha & Hb & Hc).
    split; [exact Ha|]. split; [exact Hb|]. exact (Hc H4).
Defined.

Lemma perform_fails {A} c (run : list Doc → A * list Doc) st e :
  fault st c = Some e → perform c run st = (inl e, log c st).
Proof. unfold perform. intros H. cbn [fault log]. by rewrite H. Qed.

(** [POST] on a record that passes the checks: what is left is the
    connection and the upsert. *)
Lemma POST_accepted now fields st id :
  accepted_fields fields = true →
  fields !! "messageId" = Some (Number id) →
  POST now (JObject fields) st
  = match getMongoDb st with
    | (inl _, st) =>
        (json 503 [("success", FBool false);
                   ("error", FStr "Database connection failed");
                   ("message", FStr "Unable to connect to database. Message not saved.")], st)
    | (inr _, st) =>
        match updateOne id (ingested_doc now fields) st with
        | (inr result, st) =>
            (json 200 [("success", FBool true);
                       ("messageId", FValue (Number id));
                       ("inserted", FBool (0 <? upsertedCount result));
                       ("updated", FBool (0 <? modifiedCount result));
                       ("message",
                        FStr (if 0 <? upsertedCount result
                              then "Message saved successfully"
                              else "Message updated successfully"))], st)
        | (inl dbError, st) =>
            if bool_decide (code dbError = Some 11000) then
              (json 409 [("success", FBool false);
                         ("error", FStr "Message with this ID already exists");
                         ("messageId", FValue (Number id))], st)
            else
              (json 503 [("success", FBool false);
                         ("error", FStr "Failed to save message");
                         ("message", FStr (message dbError))], st)
        end
    end.
Proof.
  intros Hacc Hid.
  destruct (accepted_fields_inv fields Hacc)
    as (m & s & c & t & Hm & Hm0 & Hs & Hsa & Hct & Hc0 & Ht & Ht0).
  rewrite Hm in Hid. injection Hid as <-.
  apply positive_checks in Ht0 as [Htt Hle].
  assert (ingested_doc now fields
          = to_bson {[ "messageId" := Number (Num m);
                       "sender" := Str (toLowerCase s);
                       "content" := Str (trim c);
                       "timestamp" := Number t;
                       "transactionHash" := prop fields "transactionHash";
                       "createdAt" := new_Date (of_Z now) ]}) as Hdoc.
  { unfold ingested_doc, prop. by rewrite Hm, Hs, Hct, Ht. }
  assert (prop fields "messageId" = Number (Num m)) as Hp1 by (unfold prop; by rewrite Hm).
  assert (prop fields "sender" = Str s) as Hp2 by (unfold prop; by rewrite Hs).
  assert (prop fields "content" = Str c) as Hp3 by (unfold prop; by rewrite Hct).
  assert (prop fields "timestamp" = Number t) as Hp4 by (unfold prop; by rewrite Ht).
  unfold POST. cbv zeta. rewrite Hp1, Hp2, Hp3, Hp4.
  rewrite Htt.
  assert (truthy (Number (Num m)) = true) as -> by (by apply bool_decide_eq_true).
  assert (truthy (Str s) = true) as ->
    by (by apply bool_decide_eq_true, is_address_nonempty).
  assert (truthy (Str c) = true) as ->
    by (by apply bool_decide_eq_true, trim_nonempty).
  cbn [negb orb]. rewrite Hsa. cbn [negb].
  rewrite (bool_decide_eq_false_2 _ Hc0), Hle.
  by rewrite <- Hdoc.
Qed.



Lemma updateOne_result id set st :
  (∃ e, updateOne id set st = (inl e, log (UpdateOne id set) st))
  ∨ updateOne id set st
    = (inr (snd (Mongo.updateOne id set (messages st))),
       set_messages (fst (Mongo.updateOne id set (messages st)))
                    (log (UpdateOne id set) st)).
Proof.
  unfold updateOne.
  destruct (fault st (UpdateOne id set)) as [e|] eqn:E.
  - left. exists e. by apply perform_fails.
  - right. rewrite perform_ok by done.
    by destruct (Mongo.updateOne id set (messages st)).
Qed.

(** X8.  Whatever the request body and the state of the database,
    [POST /api/messages] removes no document and adds at most one, and
    the documents stored under any [messageId] other than the one of the
    request stay exactly as they were. *)
Theorem POST_writes_one_document now req st id' :
  let st' := snd (POST now req st) in
  (length (messages st) <= length (messages st') <= S (length (messages st)))%nat
  ∧ (body_id req ≠ Some (Number id') →
     with_id id' (messages st') = with_id id' (messages st)).
Proof.
  cbv zeta. destruct (accepted_body req) eqn:Hacc.
  - destruct req as [| |fields|]; try done. cbn [accepted_body body_id] in *.
    destruct (accepted_fields_inv fields Hacc) as (m & _ & _ & _ & Hm & _).
    rewrite (POST_accepted now fields st (Num m) Hacc Hm).
    pose proof (reads_getMongoDb st) as (Hg & _).
    destruct (getMongoDb st) as [[e|[]] st1]; cbn [snd] in Hg |- *;
      [rewrite Hg; split; [lia|done]|].
    destruct (updateOne_result (Num m) (ingested_doc now fields) st1) as [[e ->]| ->].
    + destruct (bool_decide _); cbn [snd log messages]; rewrite Hg; split; (lia || done).
    + cbn [snd set_messages messages]. rewrite Hg. split.
      * rewrite updateOne_length. destruct (creates _ _); lia.
      * intros Hne. apply updateOne_with_id_other; [by apply ingested_doc_id|].
        intros ->. by rewrite Hm in Hne.
  - destruct (POST_rejects now req st Hacc) as [_ ->]. split; [lia|done].
Qed.

Lemma POST_writes_one_document_witness :
  let req := JObject (Samples.record (of_Z 7) "gm" (of_Z 1700000007)) in
  let st := snd (POST 1700000008000
                      (JObject (Samples.record (of_Z 8) "gn" (of_Z 1700000008)))
                      Samples.empty_store) in
  let st' := snd (POST 1700000009000 req st) in
  (length (messages st) <= length (messages st') <= S (length (messages st)))%nat
  ∧ with_id (of_Z 8) (messages st') = with_id (of_Z 8) (messages st).
Proof.
  intros req st st'.
  assert (H : body_id req ≠ Some (Number (of_Z 8))) by (vm_compute; discriminate).
  destruct (POST_writes_one_document 1700000009000 req st (of_Z 8)) as [Ha Hb].
  split; [exact Ha | exact (Hb H)].
Defined.

End WritePath.

(* ===================================================================== *)
(** ** The query routes: counts, pages and addresses                      *)
(* ===================================================================== *)

Section QueryPath.
Import JS Mongo Storage Http Props.
Import MessagesRoute MessagesApi.
Implicit Types (st : Store) (d : Doc) (coll : list Doc).

Ltac past_validation req H :=
  let c := fresh "c" in let a := fresh "a" in
  let Ha := fresh "Ha" in let Hm := fresh "Hm" in
  let Hp := fresh "Hp" in let Hl := fresh "Hl" in
  destruct (passes_validation_inv _ H) as (c & a & Ha & Hm & Hp & Hl);
  unfold GET; cbv zeta;
  change (parseInt (or_default (q_page req) "1")) with (page_of req);
  change (parseInt (or_default (q_limit req) "20")) with (limit_of req);
  rewrite Ha, Hm, Hp, Hl; cbn [negb].

(** *** Counting *)

Lemma countDocuments_cons n d coll :
  Mongo.countDocuments n (d :: coll)
  = if has_sender n d then S (Mongo.countDocuments n coll) else Mongo.countDocuments n coll.
Proof.
  unfold Mongo.countDocuments.
  destruct (has_sender n d) eqn:E.
  - by rewrite filter_cons_True.
  - rewrite filter_cons_False; [done|]. by rewrite E.
Qed.

Lemma countDocuments_app n coll1 coll2 :
  Mongo.countDocuments n (coll1 ++ coll2)
  = (Mongo.countDocuments n coll1 + Mongo.countDocuments n coll2)%nat.
Proof. unfold Mongo.countDocuments. by rewrite filter_app, length_app. Qed.



Lemma totalmsg_answers a st :
  is_address a = true → connection_fails st = false →
  fault st (CountDocuments (toLowerCase a)) = None →
  fst (TotalMsgRoute.GET a st)
  = json 200 [("success", FBool true);
              ("address", FStr (toLowerCase a));
              ("totalMessages",
               FNum (of_nat (Mongo.countDocuments (toLowerCase a) (messages st))))].
Proof.
  intros Hm Hc Hf. unfold TotalMsgRoute.GET. rewrite Hm.
  assert (bool_decide (a = "") = false) as ->.
  { apply bool_decide_eq_false. by intros ->. }
  cbn [negb orb].
  destruct (getMongoDb_ok st Hc) as (-> & Hmsg & Hfault & _).
  rewrite countDocuments_ok by (by rewrite Hfault).
  by rewrite Hmsg.
Qed.



Lemma count_query_passes a : is_address a = true → passes_validation (count_query a) = true.
Proof.
  intros Hm. unfold passes_validation, address_ok.
  cbn [count_query q_address]. rewrite Hm.
  change (page_of (count_query a)) with (parseInt "1").
  change (limit_of (count_query a)) with (parseInt "20").
  assert (lt (parseInt "1") (of_Z 1) = false) as -> by (vm_compute; reflexivity).
  assert (lt (parseInt "20") (of_Z 1) || gt (parseInt "20") (of_Z 100) = false) as ->
    by (vm_compute; reflexivity).
  done.
Qed.

(** X10.  [GET /api/totalmsg/{address}] and
    [GET /api/messages?address=...&count=true] are the same query: for a
    well-formed address, whatever the state of the database, they answer
    with the same status, the same [success] flag, the same normalized
    address and the same number, under [totalMessages] and
    [messageCount], and they leave the store in the same state. *)
Theorem totalmsg_agrees_with_count a st :
  is_address a = true →
  let r1 := GET (count_query a) st in
  let r2 := TotalMsgRoute.GET a st in
  status (fst r1) = status (fst r2)
  ∧ body (fst r1) !! "success" = body (fst r2) !! "success"
  ∧ body (fst r1) !! "address" = body (fst r2) !! "address"
  ∧ body (fst r1) !! "messageCount" = body (fst r2) !! "totalMessages"
  ∧ snd r1 = snd r2.
Proof.
  intros Hm. cbv zeta.
  past_validation (count_query a) (count_query_passes a Hm).
  cbn [count_query q_address q_count] in Ha |- *. injection Ha as <-.
  rewrite bool_decide_eq_true_2 by done.
  unfold TotalMsgRoute.GET. rewrite Hm.
  assert (bool_decide (a = "") = false) as ->.
  { apply bool_decide_eq_false. by intros ->. }
  cbn [negb orb].
  destruct (getMongoDb st) as [[e|[]] st1].
  - repeat split; cbn [fst]; rewrite ?json_status; try done;
      symmetry; json_field.
  - destruct (countDocuments (toLowerCase a) st1) as [[e|k] st2].
    + repeat split; cbn [fst]; rewrite ?json_status; try done;
        symmetry; json_field.
    + repeat split; cbn [fst]; rewrite ?json_status; try done;
        symmetry; json_field.
Qed.

Lemma totalmsg_agrees_with_count_witness :
  let r1 := GET (count_query Samples.address) Samples.unreachable_store in
  let r2 := TotalMsgRoute.GET Samples.address Samples.unreachable_store in
  status (fst r1) = status (fst r2)
  ∧ body (fst r1) !! "success" = body (fst r2) !! "success"
  ∧ body (fst r1) !! "address" = body (fst r2) !! "address"
  ∧ body (fst r1) !! "messageCount" = body (fst r2) !! "totalMessages"
  ∧ snd r1 = snd r2.
Proof.
  assert (H : is_address Samples.address = true) by (vm_compute; reflexivity).
  exact (totalmsg_agrees_with_count Samples.address Samples.unreachable_store H).
Defined.

End QueryPath.

(* ===================================================================== *)
(** ** The list mode of GET /api/messages: pages                          *)
(* ===================================================================== *)

Section Pages.
Import JS Mongo Storage Http Props.
Import MessagesRoute MessagesApi.
Implicit Types (st : Store) (d : Doc) (coll : list Doc).

Ltac past_validation req H :=
  let c := fresh "c" in let a := fresh "a" in
  let Ha := fresh "Ha" in let Hm := fresh "Hm" in
  let Hp := fresh "Hp" in let Hl := fresh "Hl" in
  destruct (passes_validation_inv _ H) as (c & a & Ha & Hm & Hp & Hl);
  unfold GET; cbv zeta;
  change (parseInt (or_default (q_page req) "1")) with (page_of req);
  change (parseInt (or_default (q_limit req) "20")) with (limit_of req);
  rewrite Ha, Hm, Hp, Hl; cbn [negb].

(** *** The order of [sort({ timestamp: -1 })] *)

















(** X13.  Addresses are compared without regard to letter case: two
    well-formed addresses that differ in case only get the same answer
    from [GET /api/messages], whatever the other parameters, and from
    [GET /api/totalmsg/{address}], and the same storage calls are
    made. *)
Theorem address_case_is_ignored a a' req st :
  is_address a = true → is_address a' = true → toLowerCase a = toLowerCase a' →
  GET (with_address a req) st = GET (with_address a' req) st
  ∧ TotalMsgRoute.GET a st = TotalMsgRoute.GET a' st.
Proof.
  intros Ha Ha' Hl. split.
  - unfold GET. cbv zeta. cbn [with_address q_address q_count q_page q_limit].
    destruct a as [|c r]; [done|]. destruct a' as [|c' r']; [done|].
    rewrite Ha, Ha', Hl. done.
  - unfold TotalMsgRoute.GET. rewrite Ha, Ha', Hl.
    destruct a as [|c r]; [done|]. destruct a' as [|c' r']; [done|].
    rewrite !bool_decide_eq_false_2 by done. done.
Qed.

Lemma address_case_is_ignored_witness :
  let req := Samples.query None (Some "2") (Some "10") in
  GET (with_address Samples.address req) Samples.empty_store
  = GET (with_address (toLowerCase Samples.address) req) Samples.empty_store
  ∧ TotalMsgRoute.GET Samples.address Samples.empty_store
    = TotalMsgRoute.GET (toLowerCase Samples.address) Samples.empty_store.
Proof.
  intros req.
  assert (H1 : is_address Samples.address = true) by (vm_compute; reflexivity).
  assert (H2 : is_address (toLowerCase Samples.address) = true) by (vm_compute; reflexivity).
  assert (H3 : toLowerCase Samples.address = toLowerCase (toLowerCase Samples.address))
    by (vm_compute; reflexivity).
  exact (address_case_is_ignored Samples.address (toLowerCase Samples.address) req
           Samples.empty_store H1 H2 H3).
Defined.

End Pages.

(* ===================================================================== *)
(** ** The reconciler: its summary, its partial runs, what it feeds       *)
(* ===================================================================== *)

Section ReconcilerRuns.
Import JS Mongo Storage Http Props.
Import SyncMessages.
Implicit Types (st : Store) (coll : list Doc) (ch : Chain).

Lemma bulkWrite_counts ops : ∀ coll,
  let B := Mongo.bulkWrite ops coll in
  matchedCount (snd B) + upsertedCount (snd B) = Z.of_nat (length ops)
  ∧ 0 <= modifiedCount (snd B) <= matchedCount (snd B)
  ∧ 0 <= upsertedCount (snd B)
  ∧ Z.of_nat (length (fst B)) = Z.of_nat (length coll) + upsertedCount (snd B).
Proof.
  induction ops as [|[id set] ops IH]; intros coll; cbn [Mongo.bulkWrite].
  - cbn. lia.
  - pose proof (updateOne_counts id set coll) as Hc.
    pose proof (updateOne_length id set coll) as Hl.
    destruct (Mongo.updateOne id set coll) as [c1 r1]. cbn [fst snd] in Hc, Hl.
    specialize (IH c1). cbv zeta in IH.
    destruct (Mongo.bulkWrite ops c1) as [c2 r2]. cbn [fst snd] in IH |- *.
    subst r1. unfold creates, modifies in *.
    destruct (first_with_id id coll) as [d|];
      cbn [add_result matchedCount modifiedCount upsertedCount length].
    + destruct (bool_decide _); lia.
    + lia.
Qed.

(** X14.  A run of the reconciler on a chain and a database that answer
    accounts for every message of the ledger exactly once: the numbers
    of inserted, updated and unchanged messages it reports are not
    negative and add up to the number of messages on the chain, and the
    collection has grown by the number inserted. *)
Theorem completed_run_accounts_for_every_message ch st :
  chain_up ch → healthy st → ledger ch ≠ [] →
  ∃ s st',
    syncMessages ch st = Some (Completed s, st')
    ∧ total s = Z.of_nat (length (ledger ch))
    ∧ inserted s + updated s + unchanged s = total s
    ∧ 0 <= inserted s ∧ 0 <= updated s ∧ 0 <= unchanged s
    ∧ Z.of_nat (length (messages st')) = Z.of_nat (length (messages st)) + inserted s.
Proof.
  intros Hch Hh Hne.
  destruct (syncMessages_healthy ch st Hch Hh Hne) as (st' & E & Hm & _).
  pose proof (bulkWrite_counts (map bulkOp (ledger ch)) (messages st)) as Hc.
  cbv zeta in Hc. rewrite length_map in Hc.
  eexists _, st'. split; [exact E|].
  cbn [total inserted updated unchanged]. rewrite Hm. lia.
Qed.

Lemma completed_run_accounts_for_every_message_witness :
  ∃ s st',
    syncMessages Samples.chain Samples.empty_store = Some (Completed s, st')
    ∧ total s = Z.of_nat (length (ledger Samples.chain))
    ∧ inserted s + updated s + unchanged s = total s
    ∧ 0 <= inserted s ∧ 0 <= updated s ∧ 0 <= unchanged s
    ∧ Z.of_nat (length (messages st'))
      = Z.of_nat (length (messages Samples.empty_store)) + inserted s.
Proof.
  assert (H1 : chain_up Samples.chain).
  { split; [intros c; reflexivity|]. vm_compute. reflexivity. }
  assert (H2 : healthy Samples.empty_store) by (split; [reflexivity|intros c; reflexivity]).
  assert (H3 : ledger Samples.chain ≠ []) by (vm_compute; discriminate).
  exact (completed_run_accounts_for_every_message Samples.chain Samples.empty_store
           H1 H2 H3).
Defined.

(** *** Batches that find none of their ids in the collection *)

Lemma with_id_app id coll1 coll2 :
  with_id id (coll1 ++ coll2) = (with_id id coll1 ++ with_id id coll2)%list.
Proof. unfold with_id. apply filter_app. Qed.

Lemma updateOne_fresh id (set : Doc) coll :
  set !! "messageId" = Some (Number id) → with_id id coll = [] →
  fst (Mongo.updateOne id set coll) = (coll ++ [set])%list.
Proof.
  intros Hs. induction coll as [|d coll IH]; intros Hn.
  - cbn [Mongo.updateOne fst app]. by rewrite has_id_inserted.
  - rewrite with_id_cons in Hn. cbn [Mongo.updateOne].
    destruct (has_id id d); [done|].
    specialize (IH Hn).
    destruct (Mongo.updateOne id set coll) as [rest' r]. cbn [fst] in IH |- *.
    by rewrite IH.
Qed.

Lemma bulkWrite_fresh ops : ∀ coll,
  well_keyed ops → NoDup (map fst ops) →
  Forall (fun op => with_id (fst op) coll = []) ops →
  fst (Mongo.bulkWrite ops coll) = (coll ++ map snd ops)%list.
Proof.
  induction ops as [|[id set] ops IH]; intros coll Hk Hn Hf.
  - cbn. by rewrite app_nil_r.
  - apply Forall_cons in Hk as [Hs Hk]. apply Forall_cons in Hf as [Hi Hf].
    cbn [fst snd map] in Hs, Hn, Hi. apply NoDup_cons in Hn as [Hni Hn].
    cbn [Mongo.bulkWrite].
    pose proof (updateOne_fresh id set coll Hs Hi) as H1.
    destruct (Mongo.updateOne id set coll) as [c1 r1]. cbn [fst] in H1. subst c1.
    specialize (IH (coll ++ [set])%list Hk Hn).
    destruct (Mongo.bulkWrite ops (coll ++ [set])) as [c2 r2]. cbn [fst snd map] in IH |- *.
    rewrite IH; [by rewrite <- app_assoc|].
    apply Forall_forall. intros [id' set'] Hin.
    rewrite Forall_forall in Hf. specialize (Hf _ Hin). cbn [fst] in Hf |- *.
    rewrite with_id_app, Hf. cbn [app]. rewrite with_id_cons.
    assert (has_id id' set = false) as ->; [|done].
    apply bool_decide_eq_false. rewrite Hs. intros [= ->].
    apply Hni. apply list_elem_of_fmap. by exists (id', set').
Qed.

Lemma messageDoc_sender msg :
  messageDoc msg !! "sender" = Some (Str (toLowerCase (sender msg))).
Proof.
  unfold messageDoc. rewrite lookup_insert_ne by done. by rewrite lookup_insert_eq.
Qed.

Lemma countDocuments_ledger n (l : list LedgerMessage) :
  Mongo.countDocuments n (map messageDoc l) = length (sent_by n l).
Proof.
  unfold sent_by. induction l as [|msg l IH]; [done|].
  cbn [map]. rewrite countDocuments_cons.
  assert (has_sender n (messageDoc msg)
          = bool_decide (toLowerCase (sender msg) = n)) as ->.
  { unfold has_sender. rewrite messageDoc_sender. apply bool_decide_ext.
    split; [by intros [= ->]|by intros ->]. }
  destruct (decide (toLowerCase (sender msg) = n)) as [E|E].
  - rewrite bool_decide_eq_true_2 by done. rewrite filter_cons_True by done.
    cbn [length]. by rewrite IH.
  - rewrite bool_decide_eq_false_2 by done. by rewrite filter_cons_False.
Qed.

(** X15.  What the reconciler stores, the query route counts: after a
    run on a chain and a database that answer, into a collection that
    held none of the ledger's message ids, [GET /api/totalmsg/{address}]
    reports for every well-formed address the count it had before plus
    the number of ledger messages sent from that address, letter case
    aside. *)
Theorem synced_messages_are_counted ch st a :
  chain_up ch → distinct_ids ch → healthy st → none_stored ch (messages st) →
  is_address a = true →
  let n := toLowerCase a in
  ∃ r st',
    syncMessages ch st = Some (r, st')
    ∧ (∀ e, r ≠ Aborted e)
    ∧ body (fst (TotalMsgRoute.GET a st')) !! "totalMessages"
      = Some (FNum (of_nat (Mongo.countDocuments n (messages st)
                            + length (sent_by n (ledger ch))))).
Proof.
  intros Hch Hd Hh Hnone Ha n.
  destruct (ledger ch) as [|m l] eqn:El.
  { exists NothingToSync, st. rewrite syncMessages_empty by done.
    split; [done|]. split; [done|].
    rewrite (totalmsg_answers a st Ha (healthy_connects st Hh)) by apply Hh.
    fold n. cbn [sent_by filter length]. rewrite Nat.add_0_r. json_field. }
  assert (ledger ch ≠ []) as Hne by (by rewrite El).
  rewrite <- El. clear El m l.
  destruct (syncMessages_healthy ch st Hch Hh Hne) as (st' & E & Hm & Hh').
  eexists _, st'. split; [exact E|]. split; [done|].
  rewrite (totalmsg_answers a st' Ha (healthy_connects st' Hh')) by apply Hh'.
  fold n. rewrite Hm.
  rewrite bulkWrite_fresh.
  - rewrite countDocuments_app, <- list_fmap_compose.
    change (snd ∘ bulkOp) with messageDoc.
    rewrite countDocuments_ledger. json_field.
  - apply bulkOps_well_keyed.
  - unfold distinct_ids in Hd. by rewrite <- list_fmap_compose.
  - apply Forall_map. exact Hnone.
Qed.

Lemma synced_messages_are_counted_witness :
  let n := toLowerCase Samples.address in
  ∃ r st',
    syncMessages Samples.chain Samples.empty_store = Some (r, st')
    ∧ (∀ e, r ≠ Aborted e)
    ∧ body (fst (TotalMsgRoute.GET Samples.address st')) !! "totalMessages"
      = Some (FNum (of_nat (Mongo.countDocuments n (messages Samples.empty_store)
                            + length (sent_by n (ledger Samples.chain))))).
Proof.
  assert (H1 : chain_up Samples.chain).
  { split; [intros c; reflexivity|]. vm_compute. reflexivity. }
  assert (H2 : distinct_ids Samples.chain).
  { unfold distinct_ids. apply (bool_decide_unpack _). vm_compute. exact I. }
  assert (H3 : healthy Samples.empty_store) by (split; [reflexivity|intros c; reflexivity]).
  assert (H4 : none_stored Samples.chain (messages Samples.empty_store)).
  { apply Forall_forall. intros msg _. reflexivity. }
  assert (H5 : is_address Samples.address = true) by (vm_compute; reflexivity).
  exact (synced_messages_are_counted Samples.chain Samples.empty_store Samples.address
           H1 H2 H3 H4 H5).
Defined.

(** *** Runs that meet a fault *)

Lemma query_messages {A} c (run : list Doc → A) st :
  messages (snd (query c run st)) = messages st.
Proof.
  unfold query, perform. cbn [fault log].
  by destruct (fault st c).
Qed.

Lemma connect_messages st : messages (snd (connect st)) = messages st.
Proof.
  unfold connect, perform. destruct (negb (MONGODB_URI st)); [done|].
  cbn [fault log]. by destruct (fault st Connect).
Qed.

Lemma bulkWrite_result ops st :
  (∃ e, bulkWrite ops st = (inl e, log (BulkWrite ops) st))
  ∨ bulkWrite ops st
    = (inr (snd (Mongo.bulkWrite ops (messages st))),
       set_messages (fst (Mongo.bulkWrite ops (messages st))) (log (BulkWrite ops) st)).
Proof.
  destruct (fault st (BulkWrite ops)) as [e|] eqn:E.
  - left. exists e. unfold bulkWrite. by apply perform_fails.
  - right. by apply bulkWrite_ok.
Qed.

Lemma bulkWrite_nil coll : fst (Mongo.bulkWrite [] coll) = coll.
Proof. done. Qed.

(** Where the loop stops, under any faults: the collection has taken
    the upserts of a whole number of batches, in ledger order. *)
Lemma sync_batches_prefix ch fuel : ∀ start acc st res st',
  0 <= start →
  sync_batches fuel ch (Z.of_nat (length (ledger ch))) start acc st = Some (res, st') →
  ∃ j : nat,
    messages st'
    = fst (Mongo.bulkWrite
             (map bulkOp (take (j * 50) (drop (Z.to_nat start) (ledger ch))))
             (messages st))
    ∧ (∀ acc', res = inr acc' →
               Z.of_nat (length (ledger ch)) <= start + Z.of_nat (j * 50)).
Proof.
  set (N := Z.of_nat (length (ledger ch))).
  assert (∀ start (acc : Counters) st (res : string + Counters) st',
            (start <? N) = false → Some (inr acc, st) = Some (res, st') →
            ∃ j : nat,
              messages st'
              = fst (Mongo.bulkWrite
                       (map bulkOp (take (j * 50) (drop (Z.to_nat start) (ledger ch))))
                       (messages st))
              ∧ (∀ acc', res = inr acc' → N <= start + Z.of_nat (j * 50))) as Hdone.
  { intros start acc st res st' Hlt [= <- <-]. exists 0%nat.
    split; [done|]. intros _ _. apply Z.ltb_ge in Hlt. lia. }
  induction fuel as [|fuel IH]; intros start acc st res st' H0; cbn [sync_batches].
  - destruct (start <? N) eqn:Hlt; cbn [negb]; [done|]. by apply Hdone.
  - destruct (start <? N) eqn:Hlt; cbn [negb]; [|by apply Hdone].
    apply Z.ltb_lt in Hlt.
    unfold getMessages.
    destruct (rpc_fault ch _).
    { intros [= <- <-]. exists 0%nat. split; [done|]. by intros acc' [=]. }
    set (X := drop (Z.to_nat start) (ledger ch)).
    assert (length X = Z.to_nat (N - start)) as HX
      by (subst X N; rewrite length_drop; lia).
    set (msgs := take (Z.to_nat (Z.min BATCH_SIZE (N - start))) X).
    assert (msgs = take 50 X) as Hmsgs.
    { subst msgs. unfold BATCH_SIZE.
      destruct (Z.le_ge_cases 50 (N - start)).
      - by rewrite Z.min_l by done.
      - rewrite Z.min_r by done. by rewrite !take_ge by lia. }
    assert (0 < length (map bulkOp msgs))%nat as Hne.
    { rewrite Hmsgs, length_map, length_take. lia. }
    apply Nat.ltb_lt in Hne. rewrite Hne.
    destruct (bulkWrite_result (map bulkOp msgs) st) as [[e ->]| ->].
    { intros [= <- <-]. exists 0%nat. split; [done|]. by intros acc' [=]. }
    intros E.
    apply IH in E as (j & Hm & Hb); [|unfold BATCH_SIZE; lia].
    exists (S j). split.
    + rewrite Hm. cbn [messages set_messages log].
      unfold BATCH_SIZE. rewrite Z2Nat.inj_add by lia.
      change (Z.to_nat 50) with 50%nat.
      rewrite <- drop_drop. fold X.
      replace (S j * 50)%nat with (50 + j * 50)%nat by lia.
      rewrite <- take_take_drop, map_app, bulkWrite_app. cbn [fst].
      by rewrite Hmsgs.
    + intros acc' Hr. specialize (Hb acc' Hr). unfold BATCH_SIZE in Hb. fold N in Hb. lia.
Qed.

(** The whole script, under any faults of the database and of the later
    calls of the chain. *)
Lemma syncMessages_prefix ch st :
  rpc_fault ch GetTotalMessageCount = false →
  Z.of_nat (length (ledger ch)) < 2 ^ 53 →
  ∃ r st' (j : nat),
    syncMessages ch st = Some (r, st')
    ∧ messages st'
      = fst (Mongo.bulkWrite (map bulkOp (take (j * 50) (ledger ch))) (messages st))
    ∧ (∀ s, r = Completed s → (length (ledger ch) <= j * 50)%nat).
Proof.
  intros Hrpc Hlen. unfold syncMessages, getTotalMessageCount. rewrite Hrpc.
  rewrite Number_of_bigint_small by lia. rewrite nat_N_Z.
  set (N := Z.of_nat (length (ledger ch))).
  destruct (N =? 0).
  { exists NothingToSync, st, 0%nat. split; [done|]. split; [done|]. by intros s [=]. }
  pose proof (connect_messages st) as Hc.
  destruct (connect st) as [[e|u] st1]; cbn [snd] in Hc.
  { exists (Aborted (message e)), st1, 0%nat.
    split; [done|]. split; [by rewrite Hc|]. by intros s [=]. }
  pose proof (query_messages CountAll (fun coll => length coll) st1) as Hq.
  destruct (query CountAll _ st1) as [[e|k] st2]; cbn [snd] in Hq.
  { exists (Aborted (message e)), st2, 0%nat.
    split; [done|]. split; [by rewrite Hq, Hc|]. by intros s [=]. }
  destruct (sync_batches_total ch (Z.to_nat N) N 0
              {| syncedCount := 0; updatedCount := 0; skippedCount := 0 |} st2)
    as [[res st3] E]; [lia|].
  rewrite E.
  destruct (sync_batches_prefix ch (Z.to_nat N) 0 _ st2 res st3 ltac:(lia) E)
    as (j & Hm & Hb).
  change (Z.to_nat 0) with 0%nat in Hm. rewrite drop_0, Hq, Hc in Hm.
  destruct res as [e|acc].
  { exists (Aborted e), st3, j. split; [done|]. split; [done|]. by intros s [=]. }
  specialize (Hb acc eq_refl).
  pose proof (query_messages (Distinct "sender") distinct_senders st3) as Hd.
  destruct (query (Distinct "sender") _ st3) as [[e|senders] st4]; cbn [snd] in Hd.
  - exists (Aborted (message e)), st4, j.
    split; [done|]. split; [by rewrite Hd|]. by intros s [=].
  - eexists _, st4, j. split; [done|]. split; [by rewrite Hd|].
    intros _ _. subst N. lia.
Qed.

(** X16.  The reconciler always comes to an end, and whatever fails on
    the way other than a write (the connection, a count, a read of the
    ledger), the collection it leaves has taken the upserts of the first
    batches of the ledger, whole batches of 50 in ledger order and
    nothing else: none is skipped, and the batches written before a
    failure stay written.  A run that completes has written them
    all. *)
Theorem run_writes_whole_batches ch st :
  rpc_fault ch GetTotalMessageCount = false →
  Z.of_nat (length (ledger ch)) < 2 ^ 53 →
  (∀ ops, fault st (BulkWrite ops) = None) →
  ∃ r st' (j : nat),
    syncMessages ch st = Some (r, st')
    ∧ messages st'
      = fst (Mongo.bulkWrite (map bulkOp (take (j * 50) (ledger ch))) (messages st))
    ∧ (∀ s, r = Completed s → (length (ledger ch) <= j * 50)%nat).
Proof. intros Hrpc Hlen _. by apply syncMessages_prefix. Qed.

Lemma run_writes_whole_batches_witness :
  let ch := {| ledger := Samples.ledger;
               rpc_fault := fun c => match c with
                                     | GetMessages start _ => start =? 50
                                     | GetTotalMessageCount => false
                                     end |} in
  let st := Samples.empty_store in
  ∃ r st' (j : nat),
    syncMessages ch st = Some (r, st')
    ∧ messages st'
      = fst (Mongo.bulkWrite (map bulkOp (take (j * 50) (ledger ch))) (messages st))
    ∧ (∀ s, r = Completed s → (length (ledger ch) <= j * 50)%nat).
Proof.
  intros ch st.
  assert (H1 : rpc_fault ch GetTotalMessageCount = false) by reflexivity.
  assert (H2 : Z.of_nat (length (ledger ch)) < 2 ^ 53) by (vm_compute; reflexivity).
  assert (H3 : ∀ ops, fault st (BulkWrite ops) = None) by (intros ops; reflexivity).
  exact (run_writes_whole_batches ch st H1 H2 H3).
Defined.

(** *** What the upserts leave alone *)

Lemma updateOne_keeps id (set : Doc) coll :
  set !! "messageId" = Some (Number id) →
  ∀ i d, coll !! i = Some d →
    ∃ d', fst (Mongo.updateOne id set coll) !! i = Some d'
          ∧ d' !! "messageId" = d !! "messageId"
          ∧ ∀ k, set !! k = None → d' !! k = d !! k.
Proof.
  intros Hs. induction coll as [|d0 rest IH]; intros i d Hi; [done|].
  cbn [Mongo.updateOne]. destruct (has_id id d0) eqn:Hid.
  - cbn [fst]. destruct i as [|i]; simpl in Hi |- *.
    + injection Hi as <-. eexists. split; [done|]. split.
      * apply bool_decide_eq_true in Hid. rewrite Hid.
        by apply lookup_union_Some_l.
      * intros k Hk. by apply lookup_union_r.
    + by exists d.
  - destruct i as [|i].
    + simpl in Hi. injection Hi as <-.
      destruct (Mongo.updateOne id set rest) as [rest' r]. by exists d0.
    + specialize (IH i d Hi).
      destruct (Mongo.updateOne id set rest) as [rest' r]. exact IH.
Qed.

Lemma bulkWrite_keeps ops : ∀ coll,
  well_keyed ops →
  ∀ i d, coll !! i = Some d →
    ∃ d', fst (Mongo.bulkWrite ops coll) !! i = Some d'
          ∧ d' !! "messageId" = d !! "messageId"
          ∧ ∀ k, Forall (fun op => snd op !! k = None) ops → d' !! k = d !! k.
Proof.
  induction ops as [|[id set] ops IH]; intros coll Hk i d Hi.
  - exists d. done.
  - apply Forall_cons in Hk as [Hs Hk]. cbn [fst snd] in Hs.
    cbn [Mongo.bulkWrite].
    destruct (updateOne_keeps id set coll Hs i d Hi) as (d1 & H1 & Hid1 & Hk1).
    destruct (Mongo.updateOne id set coll) as [c1 r1]. cbn [fst] in H1.
    destruct (IH c1 Hk i d1 H1) as (d2 & H2 & Hid2 & Hk2).
    destruct (Mongo.bulkWrite ops c1) as [c2 r2]. cbn [fst] in H2 |- *.
    exists d2. split; [done|]. split; [congruence|].
    intros k Hall. apply Forall_cons in Hall as [Hset Hall]. cbn [snd] in Hset.
    rewrite (Hk2 k Hall). by apply Hk1.
Qed.

Lemma messageDoc_other msg k :
  k ≠ "messageId" → k ≠ "sender" → k ≠ "content" → k ≠ "timestamp" → k ≠ "createdAt" →
  messageDoc msg !! k = None.
Proof.
  intros. unfold messageDoc.
  rewrite !lookup_insert_ne by done. by apply lookup_singleton_ne.
Qed.

(** X23.  The reconciler removes and moves no document, and writes only
    the five fields of its [$set]: however its run ends, every document
    that was in the collection is still at its place, with the
    [messageId] it had and with every field other than [sender],
    [content], [timestamp] and [createdAt] as it was; a
    [transactionHash] stored by the ingestion route is never lost to a
    run. *)
Theorem reconciler_keeps_the_other_fields ch st i d k :
  rpc_fault ch GetTotalMessageCount = false →
  Z.of_nat (length (ledger ch)) < 2 ^ 53 →
  messages st !! i = Some d →
  k ≠ "sender" → k ≠ "content" → k ≠ "timestamp" → k ≠ "createdAt" →
  ∃ r st' d',
    syncMessages ch st = Some (r, st')
    ∧ messages st' !! i = Some d'
    ∧ d' !! k = d !! k.
Proof.
  intros Hrpc Hlen Hi K1 K2 K3 K4.
  destruct (syncMessages_prefix ch st Hrpc Hlen) as (r & st' & j & E & Hm & _).
  destruct (bulkWrite_keeps (map bulkOp (take (j * 50) (ledger ch))) (messages st)
              (bulkOps_well_keyed _) i d Hi) as (d' & H & Hid & Hk).
  exists r, st', d'. split; [done|]. rewrite Hm. split; [done|].
  destruct (decide (k = "messageId")) as [->|K0]; [done|].
  apply Hk. apply Forall_map, Forall_forall. intros msg _.
  by apply messageDoc_other.
Qed.

Lemma reconciler_keeps_the_other_fields_witness :
  let d : Doc := <["transactionHash" := Str "0x5e"]>
                   (Samples.record (of_Z 7) "gm" (of_Z 1700000007)) in
  let st := set_messages [d] Samples.empty_store in
  ∃ r st' d',
    syncMessages Samples.chain st = Some (r, st')
    ∧ messages st' !! 0%nat = Some d'
    ∧ d' !! "transactionHash" = d !! "transactionHash".
Proof.
  intros d st.
  assert (H1 : rpc_fault Samples.chain GetTotalMessageCount = false) by reflexivity.
  assert (H2 : Z.of_nat (length (ledger Samples.chain)) < 2 ^ 53) by (vm_compute; reflexivity).
  assert (H3 : messages st !! 0%nat = Some d) by reflexivity.
  assert (K1 : "transactionHash" ≠ "sender") by discriminate.
  assert (K2 : "transactionHash" ≠ "content") by discriminate.
  assert (K3 : "transactionHash" ≠ "timestamp") by discriminate.
  assert (K4 : "transactionHash" ≠ "createdAt") by discriminate.
  exact (reconciler_keeps_the_other_fields Samples.chain st 0 d "transactionHash"
           H1 H2 H3 K1 K2 K3 K4).
Defined.

End ReconcilerRuns.

(* ===================================================================== *)
(** ** The API client, alone and against the routes                       *)
(* ===================================================================== *)

Section Client.
Import JS Mongo Storage Http Props.
Import Json MessagesApi.
Implicit Types (st : Store) (d : Doc) (a address : string).

Ltac past_validation req H :=
  let c := fresh "c" in let a := fresh "a" in
  let Ha := fresh "Ha" in let Hm := fresh "Hm" in
  let Hp := fresh "Hp" in let Hl := fresh "Hl" in
  destruct (passes_validation_inv _ H) as (c & a & Ha & Hm & Hp & Hl);
  unfold MessagesRoute.GET; cbv zeta;
  change (parseInt (or_default (MessagesRoute.q_page req) "1")) with (page_of req);
  change (parseInt (or_default (MessagesRoute.q_limit req) "20")) with (limit_of req);
  rewrite Ha, Hm, Hp, Hl; cbn [negb].

(** *** Strings and JSON *)

Lemma lower_char_idemp c : lower_char (lower_char c) = lower_char c.
Proof. by destruct c as [[] [] [] [] [] [] [] []]. Qed.

Lemma toLowerCase_idemp s : toLowerCase (toLowerCase s) = toLowerCase s.
Proof.
  induction s as [|c s IH]; [done|]. cbn [toLowerCase]. by rewrite lower_char_idemp, IH.
Qed.

Lemma is_address_not_empty a : is_address a = true → bool_decide (a = "") = false.
Proof. intros H. apply bool_decide_eq_false. by intros ->. Qed.



Lemma served_Get now q st :
  served now (Get q) st
  = (Answers (status (fst (MessagesRoute.GET q st)))
             (inr (wire (fst (MessagesRoute.GET q st)))),
     snd (MessagesRoute.GET q st)).
Proof. unfold served. by destruct (MessagesRoute.GET q st). Qed.


(** *** The checks the client makes before it sends *)

Lemma list_query_page a p l : page_of (list_query a p l) = of_Z p.
Proof.
  unfold page_of. cbn [list_query MessagesRoute.q_page].
  rewrite or_default_given by apply Number_toString_not_empty.
  apply parseInt_Number_toString.
Qed.

Lemma list_query_limit a p l : limit_of (list_query a p l) = of_Z l.
Proof.
  unfold limit_of. cbn [list_query MessagesRoute.q_limit].
  rewrite or_default_given by apply Number_toString_not_empty.
  apply parseInt_Number_toString.
Qed.

Lemma list_query_passes a p l :
  passes_validation (list_query a p l) = negb (turned_down a p l).
Proof.
  unfold passes_validation, address_ok, turned_down.
  rewrite list_query_page, list_query_limit. cbn [list_query MessagesRoute.q_address].
  unfold gt. rewrite !lt_of_Z.
  destruct (is_address a) eqn:Ha.
  - rewrite (is_address_not_empty a Ha). cbn [negb orb andb].
    repeat case_bool_decide;
      destruct (Z.ltb_spec p 1), (Z.ltb_spec l 1), (Z.ltb_spec 100 l); (done || lia).
  - cbn [negb andb]. by rewrite orb_true_r.
Qed.

(** X17.  The checks [getMessages] makes before it sends are the checks
    of the route: for safe integers [page] and [limit], the request it
    would build passes the validation of [GET /api/messages] exactly
    when the client does not turn the input down.  An input it turns
    down gives a failed result with no status code and no request, and
    any other input costs exactly one request, the one for that address,
    page and limit. *)
Theorem client_checks_are_the_route_checks
        {State} (fetch : Request → State → Reply * State) a (p l : Z) (s : State) :
  safe_integer p → safe_integer l →
  passes_validation (list_query a p l) = negb (turned_down a p l)
  ∧ (turned_down a p l = true →
     snd (getMessages fetch a p l s) = s
     ∧ success (fst (getMessages fetch a p l s)) = false
     ∧ statusCode (fst (getMessages fetch a p l s)) = None)
  ∧ (turned_down a p l = false →
     snd (getMessages fetch a p l s) = snd (fetch (Get (list_query a p l)) s)).
Proof.
  intros _ _.
  split; [apply list_query_passes|]. unfold turned_down, getMessages. split.
  - intros H.
    destruct (bool_decide (a = "") || negb (is_address a)); [done|].
    destruct (p <? 1); [done|].
    cbn [orb] in H. by rewrite H.
  - intros H. apply orb_false_iff in H as [H H3]. apply orb_false_iff in H as [H H2].
    apply orb_false_iff in H as [H0 H1]. rewrite H0, H1, H2, H3. cbn [orb].
    unfold fetchWithTimeout.
    destruct (fetch (Get (list_query a p l)) s) as [[status body|e] s']; cbn [snd].
    + destruct (negb (SafeFetch.ok status)); [done|].
      destruct body as [m|[]]; try done;
        (destruct (_ || _ || _); [done|]);
        (destruct (_ || _ || _ || _); [done|]);
        (destruct (negb (address_matches _ _)); [done|]);
        by destruct (check_messages _ _).
    + done.
Qed.

Lemma client_checks_are_the_route_checks_witness :
  let fetch := served 1700000000000 in
  let s := Samples.empty_store in
  (passes_validation (list_query Samples.address 0 20)
   = negb (turned_down Samples.address 0 20)
   ∧ snd (getMessages fetch Samples.address 0 20 s) = s
   ∧ success (fst (getMessages fetch Samples.address 0 20 s)) = false
   ∧ statusCode (fst (getMessages fetch Samples.address 0 20 s)) = None)
  ∧ snd (getMessages fetch Samples.address 2 20 s)
    = snd (fetch (Get (list_query Samples.address 2 20)) s).
Proof.
  intros fetch s.
  assert (H1 : turned_down Samples.address 0 20 = true) by (vm_compute; reflexivity).
  assert (H2 : turned_down Samples.address 2 20 = false) by (vm_compute; reflexivity).
  assert (S0 : safe_integer 0) by (split; reflexivity).
  assert (S2 : safe_integer 2) by (split; reflexivity).
  assert (S20 : safe_integer 20) by (split; reflexivity).
  split.
  - destruct (client_checks_are_the_route_checks fetch Samples.address 0 20 s S0 S20)
      as (Ha & Hb & _).
    split; [exact Ha | exact (Hb H1)].
  - exact (proj2 (proj2 (client_checks_are_the_route_checks fetch Samples.address 2 20 s
                           S2 S20))
                 H2).
Defined.

(** *** Counting through the client *)

(** The count the route sends: 0 when storage fails. *)
Lemma GET_count_facts a st :
  is_address a = true →
  let r := fst (MessagesRoute.GET (count_query a) st) in
  let n := toLowerCase a in
  status r = 200
  ∧ body r !! "address" = Some (FStr n)
  ∧ body r !! "messageCount"
    = Some (FNum (of_nat (if count_fails a st then 0%nat
                          else Mongo.countDocuments n (messages st)))).
Proof.
  intros Hm. cbv zeta.
  past_validation (count_query a) (count_query_passes a Hm).
  cbn [count_query MessagesRoute.q_address MessagesRoute.q_count] in Ha |- *.
  injection Ha as <-.
  rewrite bool_decide_eq_true_2 by done.
  unfold count_fails.
  destruct (connection_fails st) eqn:Hc.
  - destruct (getMongoDb_fails st Hc) as [e ->]. cbn [orb].
    split; [json_field|]. split; json_field.
  - destruct (getMongoDb_ok st Hc) as (-> & Hmsg & Hfault & _). cbn [orb].
    destruct (call_fails st (CountDocuments (toLowerCase a))) eqn:Hq.
    + rewrite <- (call_fails_connected st) in Hq by done.
      destruct (query_fails _ (Mongo.countDocuments (toLowerCase a)) _ Hq) as [e He].
      unfold countDocuments. rewrite He.
      split; [json_field|]. split; json_field.
    + unfold call_fails in Hq. apply bool_decide_eq_false in Hq.
      assert (fault (connected st) (CountDocuments (toLowerCase a)) = None) as Hn.
      { rewrite Hfault. destruct (fault st _) eqn:E; [|done]. exfalso. eauto. }
      rewrite countDocuments_ok by done. rewrite Hmsg.
      split; [json_field|]. split; json_field.
Qed.

(** What [getMessageCount] makes of a 2xx reply that names the address
    and carries a number. *)
Lemma getMessageCount_reads {State} (fetch : Request → State → Reply * State)
      a (s s' : State) status fields n q :
  is_address a = true →
  fetch (Get (count_query a)) s = (Answers status (inr (JObject fields)), s') →
  SafeFetch.ok status = true →
  fields !! "address" = Some (JString n) → toLowerCase n = toLowerCase a →
  fields !! "messageCount" = Some (JNumber q) →
  getMessageCount fetch a s = (succeeded (JObject fields) (Some status), s').
Proof.
  intros Ha Hf Hok Hn Hl Hq. unfold getMessageCount, fetchWithTimeout.
  rewrite (is_address_not_empty a Ha), Ha, Hf, Hok. cbn [negb orb].
  unfold has_type, address_matches. cbn [get]. rewrite Hn, Hq. cbn [typeof].
  rewrite !bool_decide_eq_true_2 by done. done.
Qed.

Lemma getMessageCount_served now a st :
  is_address a = true →
  let k := if count_fails a st then 0
           else Z.of_nat (Mongo.countDocuments (toLowerCase a) (messages st)) in
  ∃ fields,
    getMessageCount (served now) a st
    = (succeeded (JObject fields) (Some 200), snd (MessagesRoute.GET (count_query a) st))
    ∧ fields !! "messageCount" = Some (json_of_Z k).
Proof.
  intros Ha k. destruct (GET_count_facts a st Ha) as (Hs & Hn & Hq).
  exists (omap field_json (body (fst (MessagesRoute.GET (count_query a) st)))).
  assert (omap field_json (body (fst (MessagesRoute.GET (count_query a) st))) !! "messageCount"
          = Some (json_of_Z k)) as Hk.
  { rewrite lookup_omap, Hq. subst k. by destruct (count_fails a st). }
  split; [|done].
  rewrite <- Hs.
  eapply getMessageCount_reads; [done| |by rewrite Hs| | |exact Hk].
  - rewrite served_Get. reflexivity.
  - rewrite lookup_omap, Hn. reflexivity.
  - apply toLowerCase_idemp.
Qed.

Lemma positive_json k : bool_decide (0 < Q2Qc (inject_Z k))%Qc = bool_decide (0 < k).
Proof. pose proof (lt_of_Z 0 k) as H. exact H. Qed.

Lemma hasMessages_served now a st :
  is_address a = true →
  let k := if count_fails a st then 0
           else Z.of_nat (Mongo.countDocuments (toLowerCase a) (messages st)) in
  fst (hasMessages (served now) a st) = bool_decide (0 < k).
Proof.
  intros Ha k. unfold hasMessages.
  destruct (getMessageCount_served now a st Ha) as (fields & -> & Hk).
  cbn [fst success data succeeded mbind option_bind get]. fold k in Hk. rewrite Hk.
  unfold json_of_Z. cbn [andb]. apply positive_json.
Qed.

(** X18.  The client cannot tell an outage from an empty history.  When
    the connection or the count fails, the route answers 200 with a zero
    and [success: false]; [getMessageCount] does not look at that flag,
    so it reports success with a message count of 0, and [hasMessages]
    says no.  When storage answers, it reports the number of documents
    stored for the sender, and [hasMessages] says whether there is
    one. *)
Theorem client_reads_an_outage_as_zero now a st st' :
  is_address a = true →
  (count_fails a st = true →
   let r := fst (getMessageCount (served now) a st) in
   success r = true ∧ statusCode r = Some 200
   ∧ data r ≫= get "messageCount" = Some (json_of_Z 0)
   ∧ fst (hasMessages (served now) a st) = false)
  ∧ (count_fails a st' = false →
     let k := Z.of_nat (Mongo.countDocuments (toLowerCase a) (messages st')) in
     let r := fst (getMessageCount (served now) a st') in
     success r = true ∧ statusCode r = Some 200
     ∧ data r ≫= get "messageCount" = Some (json_of_Z k)
     ∧ fst (hasMessages (served now) a st') = bool_decide (0 < k)).
Proof.
  intros Ha. split; intros Hf; cbv zeta.
  - destruct (getMessageCount_served now a st Ha) as (fields & -> & Hk).
    pose proof (hasMessages_served now a st Ha) as Hh. cbv zeta in Hh.
    rewrite Hf in Hk, Hh. by rewrite Hh.
  - destruct (getMessageCount_served now a st' Ha) as (fields & -> & Hk).
    pose proof (hasMessages_served now a st' Ha) as Hh. cbv zeta in Hh.
    rewrite Hf in Hk, Hh. by rewrite Hh.
Qed.

Lemma client_reads_an_outage_as_zero_witness :
  let now := 1700000000000 in
  let a := Samples.address in
  let st := Samples.unreachable_store in
  let st' := snd (MessagesRoute.POST now
                    (MessagesRoute.JObject (Samples.record (of_Z 7) "gm" (of_Z 1700000007)))
                    Samples.empty_store) in
  (let r := fst (getMessageCount (served now) a st) in
   success r = true ∧ statusCode r = Some 200
   ∧ data r ≫= get "messageCount" = Some (json_of_Z 0)
   ∧ fst (hasMessages (served now) a st) = false)
  ∧ (let k := Z.of_nat (Mongo.countDocuments (toLowerCase a) (messages st')) in
     let r := fst (getMessageCount (served now) a st') in
     success r = true ∧ statusCode r = Some 200
     ∧ data r ≫= get "messageCount" = Some (json_of_Z k)
     ∧ fst (hasMessages (served now) a st') = bool_decide (0 < k)).
Proof.
  intros now a st st'.
  assert (H1 : is_address a = true) by (vm_compute; reflexivity).
  assert (H2 : count_fails a st = true) by (vm_compute; reflexivity).
  assert (H3 : count_fails a st' = false) by (vm_compute; reflexivity).
  destruct (client_reads_an_outage_as_zero now a st st' H1) as [Ha Hb].
  split; [exact (Ha H2) | exact (Hb H3)].
Defined.

(** *** Listing through the client *)


(** What [getMessages] makes of a 2xx reply of the expected shape. *)
Lemma getMessages_reads {State} (fetch : Request → State → Reply * State)
      a p l (s s' : State) status fields n msgs pg q1 q2 q3 q4 :
  turned_down a p l = false →
  fetch (Get (list_query a p l)) s = (Answers status (inr (JObject fields)), s') →
  SafeFetch.ok status = true →
  fields !! "address" = Some (JString n) → toLowerCase n = toLowerCase a →
  fields !! "messages" = Some (JArray msgs) →
  fields !! "pagination" = Some (JObject pg) →
  pg !! "page" = Some (JNumber q1) → pg !! "limit" = Some (JNumber q2) →
  pg !! "total" = Some (JNumber q3) → pg !! "totalPages" = Some (JNumber q4) →
  check_messages status msgs = None →
  getMessages fetch a p l s = (succeeded (JObject fields) (Some status), s').
Proof.
  intros Ht Hf Hok Hn Hl Hm Hp H1 H2 H3 H4 Hc.
  unfold turned_down in Ht.
  apply orb_false_iff in Ht as [Ht Ht3]. apply orb_false_iff in Ht as [Ht Ht2].
  apply orb_false_iff in Ht as [Ht0 Ht1].
  unfold getMessages, fetchWithTimeout.
  rewrite Ht0, Ht1, Ht2, Ht3, Hf, Hok. cbn [negb orb].
  unfold has_type, address_matches. cbn [get]. rewrite Hn, Hm, Hp.
  cbn [typeof isArray truthy default from_option id get]. rewrite H1, H2, H3, H4.
  cbn [typeof elements]. rewrite !bool_decide_eq_true_2 by done.
  cbn [negb orb]. by rewrite Hc.
Qed.











(** *** Listing when storage fails *)

(** What the route sends for a list request when storage fails. *)
Lemma GET_list_outage a (p l : Z) st :
  turned_down a p l = false →
  let n := toLowerCase a in
  let r := fst (MessagesRoute.GET (list_query a p l) st) in
  status r = 200
  ∧ body r !! "address" = Some (FStr n)
  ∧ (connection_fails st = true → body r !! "messages" = None)
  ∧ (connection_fails st = false → read_fails (list_query a p l) st = true →
     body r !! "messages" = Some (FDocs [])
     ∧ body r !! "pagination" = Some (FPagination (of_Z p) (of_Z l) (of_Z 0) (of_Z 0))).
Proof.
  intros Ht n.
  assert (passes_validation (list_query a p l) = true) as Hv
    by (by rewrite list_query_passes, Ht).
  cbv zeta.
  past_validation (list_query a p l) Hv.
  cbn [list_query MessagesRoute.q_address MessagesRoute.q_count] in Ha |- *.
  injection Ha as <-.
  rewrite bool_decide_eq_false_2 by done.
  rewrite !list_query_page, !list_query_limit. fold n.
  destruct (connection_fails st) eqn:Hc.
  - destruct (getMongoDb_fails st Hc) as [e ->].
    split; [json_field|]. split; [json_field|]. split; [|done].
    intros _. cbn [fst]. by repeat (rewrite json_next by discriminate).
  - destruct (getMongoDb_ok st Hc) as (-> & _).
    set (skip := mul (sub (of_Z p) (of_Z 1)) (of_Z l)).
    pose proof (find_store n skip (of_Z l) (connected st)) as Hs.
    destruct (find n skip (of_Z l) (connected st)) as [[e|docs] st1] eqn:EF; cbn [snd] in Hs.
    { split; [json_field|]. split; [json_field|]. split; [done|].
      intros _ _. split; json_field. }
    unfold countDocuments.
    destruct (query (CountDocuments n) (Mongo.countDocuments n) st1) as [[e|k] st2] eqn:EC.
    { split; [json_field|]. split; [json_field|]. split; [done|].
      intros _ _. split; json_field. }
    split; [json_field|]. split; [json_field|]. split; [done|].
    intros _ Hf. exfalso.
    unfold read_fails, list_mode in Hf.
    cbn [list_query MessagesRoute.q_address MessagesRoute.q_count] in Hf. cbv zeta in Hf.
    rewrite Hc in Hf. rewrite bool_decide_eq_false_2 in Hf by done.
    cbn [orb negb] in Hf.
    rewrite !list_query_page, !list_query_limit in Hf. fold n in Hf. fold skip in Hf.
    rewrite <- !(call_fails_connected st) in Hf by done.
    apply orb_true_iff in Hf as [Hf|Hf].
    + destruct (find_fails _ _ _ _ Hf) as [e He]. congruence.
    + subst st1.
      destruct (query_fails (CountDocuments n) (Mongo.countDocuments n)
                            (log (Find n skip (of_Z l)) (connected st)) Hf) as [e He].
      congruence.
Qed.

(** X24.  In list mode the client tells one kind of outage from an
    empty history and not the other, for a page and a limit it lets
    through whose product is a safe integer.  When the connection cannot
    be made, the route answers 200 without a [messages] member, and
    [getMessages] fails with [Invalid response structure].  When the
    connection stands and [find] or the count fails, the route answers
    200 with no message, a total of 0 and [success: false];
    [getMessages] does not look at that flag and succeeds with an empty
    page of an empty history. *)
Theorem client_lists_nothing_when_a_query_fails now a (p l : Z) st st' :
  turned_down a p l = false → safe_integer (p * l) →
  (connection_fails st = true →
   fst (getMessages (served now) a p l st)
   = failed (JString "Invalid response structure") (Some 200))
  ∧ (connection_fails st' = false → read_fails (list_query a p l) st' = true →
     let r := fst (getMessages (served now) a p l st') in
     success r = true ∧ statusCode r = Some 200
     ∧ data r ≫= get "messages" = Some (JArray [])
     ∧ data r ≫= get "pagination"
       = Some (JObject {[ "page" := json_of_Z p; "limit" := json_of_Z l;
                          "total" := json_of_Z 0; "totalPages" := json_of_Z 0 ]})).
Proof.
  intros Ht _. split.
  - intros Hc. destruct (GET_list_outage a p l st Ht) as (Hs & Hn & Hm & _).
    specialize (Hm Hc). cbv zeta in Hs, Hn, Hm.
    unfold turned_down in Ht.
    apply orb_false_iff in Ht as [Ht Ht3]. apply orb_false_iff in Ht as [Ht Ht2].
    apply orb_false_iff in Ht as [Ht0 Ht1].
    unfold getMessages, fetchWithTimeout.
    rewrite Ht0, Ht1, Ht2, Ht3, served_Get, Hs. cbn [negb orb].
    change (SafeFetch.ok 200) with true. cbn [negb]. unfold wire. cbn [get].
    unfold has_type. rewrite !lookup_omap, Hn, Hm.
    cbn [mbind option_bind field_json typeof isArray].
    rewrite bool_decide_eq_true_2 by done. done.
  - intros Hc Hf. cbv zeta.
    destruct (GET_list_outage a p l st' Ht) as (Hs & Hn & _ & Hm).
    destruct (Hm Hc Hf) as [B2 B3]. cbv zeta in Hs, Hn, B2, B3.
    set (r := fst (MessagesRoute.GET (list_query a p l) st')) in *.
    assert (getMessages (served now) a p l st'
            = (succeeded (JObject (omap field_json (body r))) (Some 200),
               snd (MessagesRoute.GET (list_query a p l) st'))) as ->.
    { eapply (getMessages_reads (served now) a p l st' _ 200 _ (toLowerCase a) []);
        [exact Ht| |done| |apply toLowerCase_idemp| | | | | | |done].
      - rewrite served_Get. fold r. rewrite Hs. reflexivity.
      - by rewrite lookup_omap, Hn.
      - by rewrite lookup_omap, B2.
      - by rewrite lookup_omap, B3.
      - apply lookup_insert_eq.
      - rewrite lookup_insert_ne by done. apply lookup_insert_eq.
      - do 2 (rewrite lookup_insert_ne by done). apply lookup_insert_eq.
      - do 3 (rewrite lookup_insert_ne by done). apply lookup_singleton_eq. }
    cbn [fst success statusCode data succeeded mbind option_bind get].
    by rewrite !lookup_omap, B2, B3.
Qed.

Lemma client_lists_nothing_when_a_query_fails_witness :
  let now := 1700000000000 in
  let a := Samples.address in
  let st := Samples.unreachable_store in
  let st' := with_fault (fun c => match c with
                                  | Find _ _ _ => Some {| code := None; message := "find failed" |}
                                  | _ => None
                                  end) Samples.empty_store in
  fst (getMessages (served now) a 1 20 st)
  = failed (JString "Invalid response structure") (Some 200)
  ∧ (let r := fst (getMessages (served now) a 1 20 st') in
     success r = true ∧ statusCode r = Some 200
     ∧ data r ≫= get "messages" = Some (JArray [])
     ∧ data r ≫= get "pagination"
       = Some (JObject {[ "page" := json_of_Z 1; "limit" := json_of_Z 20;
                          "total" := json_of_Z 0; "totalPages" := json_of_Z 0 ]})).
Proof.
  intros now a st st'.
  assert (H1 : turned_down a 1 20 = false) by (vm_compute; reflexivity).
  assert (H2 : connection_fails st = true) by reflexivity.
  assert (H3 : connection_fails st' = false) by reflexivity.
  assert (H4 : read_fails (list_query a 1 20) st' = true) by (vm_compute; reflexivity).
  assert (H5 : safe_integer (1 * 20)) by (split; reflexivity).
  destruct (client_lists_nothing_when_a_query_fails now a 1 20 st st' H1 H5) as [Ha Hb].
  split; [exact (Ha H2) | exact (Hb H3 H4)].
Defined.

(** *** Saving through the client *)

Lemma error_reply_fails status fields :
  success (error_reply status (inr (JObject fields))) = false
  ∧ statusCode (error_reply status (inr (JObject fields))) = Some status.
Proof. done. Qed.




End Client.
